(** * Resource-override chain of the AWS provider configuration

    A shallow embedding of the resource overrides of package [config] (the
    seven [tjconfig.ResourceOption] mutators and the two override tables)
    and of the default option chain of [config/provider.go], together with
    the properties the specification states about them.

    Conventions of the embedding:
    - a Go [string] is a Rocq [string] (a sequence of bytes), a Go [int] is
      a [Z];
    - a Go [map[string]T] is a [gmap string T].  The descriptors are the ones
      the generator builds: their [Schema] and [References] maps are
      allocated and no schema entry is nil.  The schema map holds pointers;
      [TagsAllRemoval] writes through the pointer of one entry and the
      other mutators replace entries, so an entry is kept by value, which
      describes schemas whose entries do not share a pointer;
    - a function that may panic returns a [result];
    - what belongs to the generator library (the comment builder, the
      constant [IdentifierFromProvider], the descriptor [DefaultResource]
      starts from) or to package [config/common] ([PathARNExtractor]) is a
      variable of the section that defines the mutators. *)

From Stdlib Require Import String Ascii ZArith List Lia.
From stdpp Require Import base option list gmap strings fin_maps.

Open Scope string_scope.

(** ** Panics *)

Inductive result (A : Type) : Type :=
| Ok (a : A)
| Panic (msg : string).
Arguments Ok {A} a.
Arguments Panic {A} msg.

#[global] Instance result_ret : MRet result := λ A a, Ok a.

#[global] Instance result_bind : MBind result := λ A B f x,
  match x with
  | Ok a => f a
  | Panic msg => Panic msg
  end.

(** ** The functions of Go's [strings] package the module calls *)

Module gostrings.

Fixpoint drop_bytes (n : nat) (s : string) : string :=
  match n, s with
  | O, _ => s
  | S n', String _ s' => drop_bytes n' s'
  | S _, EmptyString => EmptyString
  end.

Fixpoint take_bytes (n : nat) (s : string) : string :=
  match n, s with
  | O, _ => EmptyString
  | S n', String c s' => String c (take_bytes n' s')
  | S _, EmptyString => EmptyString
  end.

(** [strings.HasPrefix(s, prefix)]:
    [len(s) >= len(prefix) && s[:len(prefix)] == prefix]. *)
Definition HasPrefix (s prefix : string) : bool :=
  (String.length prefix <=? String.length s)%nat
  && String.eqb (take_bytes (String.length prefix) s) prefix.

(** [strings.HasSuffix(s, suffix)]:
    [len(s) >= len(suffix) && s[len(s)-len(suffix):] == suffix]. *)
Definition HasSuffix (s suffix : string) : bool :=
  (String.length suffix <=? String.length s)%nat
  && String.eqb (drop_bytes (String.length s - String.length suffix) s) suffix.

(** [strings.TrimPrefix]: [s] without the leading [prefix], or [s] itself
    when it does not start with [prefix]. *)
Definition TrimPrefix (s prefix : string) : string :=
  if HasPrefix s prefix then drop_bytes (String.length prefix) s else s.

(** [strings.TrimSuffix]: [s] without the trailing [suffix], or [s] itself
    when it does not end with [suffix]. *)
Definition TrimSuffix (s suffix : string) : string :=
  if HasSuffix s suffix
  then take_bytes (String.length s - String.length suffix) s
  else s.

(** [strings.Split(s, sep)] for a separator of one byte, the only way the
    module calls it.  The result is never empty: a string without the
    separator (the empty string too) gives a list of one element. *)
Fixpoint Split (s : string) (sep : ascii) : list string :=
  match s with
  | EmptyString => [EmptyString]
  | String c s' =>
      if Ascii.eqb c sep then EmptyString :: Split s' sep
      else match Split s' sep with
           | w :: ws => String c w :: ws
           | [] => [String c EmptyString]
           end
  end.

(** [strings.Join(elems, sep)]. *)
Fixpoint Join (elems : list string) (sep : string) : string :=
  match elems with
  | [] => EmptyString
  | [w] => w
  | w :: ws => w +:+ sep +:+ Join ws sep
  end.

End gostrings.

(** [words[low:]] on a Go slice: a run-time panic unless
    [0 <= low <= len(words)]. *)
Definition slice_from {A : Type} (l : list A) (low : Z) : result (list A) :=
  if ((0 <=? low) && (low <=? Z.of_nat (length l)))%Z
  then Ok (drop (Z.to_nat low) l)
  else Panic "runtime error: slice bounds out of range".

(** ** The naming transform of the generator library *)

Module name.

Record Name : Type := mkName { Snake : string; Camel : string }.

(** ASCII upper-casing of one byte; bytes outside [a-z] are kept. *)
Definition upper (c : ascii) : ascii :=
  let n := nat_of_ascii c in
  if ((97 <=? n) && (n <=? 122))%nat then ascii_of_nat (n - 32) else c.

Definition capitalize (w : string) : string :=
  match w with
  | EmptyString => EmptyString
  | String c w' => String (upper c) w'
  end.

Definition nonempty (w : string) : bool :=
  match w with EmptyString => false | String _ _ => true end.

(** Modelled from the spec: [name.NewFromSnake] of the generator library
    (package [terrajet/pkg/types/name]), whose source is not part of this
    repository.  Section 4.1 gives its [Camel] component: the
    underscore-delimited identifier is cut at every underscore, empty
    segments are skipped (so leading and trailing underscores are
    ignored), each remaining word is capitalized (ASCII only) and the
    words are concatenated. *)
Definition NewFromSnake (s : string) : Name :=
  {| Snake := s;
     Camel := String.concat ""
                (map capitalize (List.filter nonempty (gostrings.Split s "_"%char))) |}.

End name.

(** ** Data model *)

(** [schema.ValueType] of the Terraform plugin SDK. *)
Inductive ValueType : Type :=
| TypeInvalid | TypeBool | TypeInt | TypeFloat | TypeString
| TypeList | TypeMap | TypeSet.

(** [schema.Schema]: the description of one field.  The attributes the
    mutators read or write, and a few of the others; a struct literal that
    names only some of them leaves the rest at their zero value
    ([zeroSchema]). *)
Record Schema : Type := mkSchema {
  Type_ : ValueType;
  Optional : bool;
  Required : bool;
  Description : string;
  Computed : bool;
  ForceNew : bool;
  MaxItems : Z;
  MinItems : Z;
  Deprecated : string;
  Sensitive : bool
}.

Definition zeroSchema : Schema :=
  {| Type_ := TypeInvalid; Optional := false; Required := false;
     Description := ""; Computed := false; ForceNew := false;
     MaxItems := 0; MinItems := 0; Deprecated := ""; Sensitive := false |}.

(** [schema.Resource]; its [Schema] map is [SchemaMap] here. *)
Record TFResource : Type := mkTFResource {
  SchemaMap : gmap string Schema
}.

(** [tjconfig.Reference]. *)
Record Reference : Type := mkReference {
  RefType : string;
  Extractor : string;
  RefFieldName : string;
  SelectorFieldName : string
}.

(** The function-valued components of [tjconfig.ExternalName], named by the
    strategy they implement. *)
Inductive Strategy : Type :=
| NameAsIdentifierFns
| IdentifierFromProviderFns.

(** [tjconfig.ExternalName]. *)
Record ExternalNameConfig : Type := mkExternalName {
  Fns : Strategy;
  OmittedFields : list string;
  DisableNameInitializer : bool
}.

(** [tjconfig.Resource]: the resource descriptor. *)
Record Resource : Type := mkResource {
  Name : string;
  ShortGroup : string;
  Kind : string;
  Version : string;
  ExternalName : ExternalNameConfig;
  References : gmap string Reference;
  TerraformResource : TFResource
}.

Definition set_GroupKind (g k : string) (r : Resource) : Resource :=
  {| Name := Name r; ShortGroup := g; Kind := k; Version := Version r;
     ExternalName := ExternalName r; References := References r;
     TerraformResource := TerraformResource r |}.

Definition set_Kind (k : string) (r : Resource) : Resource :=
  set_GroupKind (ShortGroup r) k r.

Definition set_ExternalName (e : ExternalNameConfig) (r : Resource) : Resource :=
  {| Name := Name r; ShortGroup := ShortGroup r; Kind := Kind r;
     Version := Version r; ExternalName := e; References := References r;
     TerraformResource := TerraformResource r |}.

Definition set_References (refs : gmap string Reference) (r : Resource) : Resource :=
  {| Name := Name r; ShortGroup := ShortGroup r; Kind := Kind r;
     Version := Version r; ExternalName := ExternalName r; References := refs;
     TerraformResource := TerraformResource r |}.

Definition set_Schema (m : gmap string Schema) (r : Resource) : Resource :=
  {| Name := Name r; ShortGroup := ShortGroup r; Kind := Kind r;
     Version := Version r; ExternalName := ExternalName r;
     References := References r;
     TerraformResource := {| SchemaMap := m |} |}.

Definition schemaOf (r : Resource) : gmap string Schema :=
  SchemaMap (TerraformResource r).

(** [tjconfig.ResourceOption]: a mutation of the descriptor that may panic. *)
Definition ResourceOption : Type := Resource → result Resource.

(** ** Group and kind overrides *)

(** [GroupKindCalculator]. *)
Abbreviation GroupKindCalculator := (string → result (string * string)).

Definition ReplaceGroupWords (group : string) (count : Z) : GroupKindCalculator :=
  λ resource,
    let words := gostrings.Split (gostrings.TrimPrefix resource "aws_") "_"%char in
    rest ← slice_from words count;
    let snakeKind := gostrings.Join rest "_" in
    mret (group, name.Camel (name.NewFromSnake snakeKind)).

Definition GroupMap : gmap string GroupKindCalculator :=
  list_to_map
    [ ("aws_route53_resolver_rule", ReplaceGroupWords "route53resolver" 2);
      ("aws_route53_resolver_rule_association", ReplaceGroupWords "route53resolver" 2);
      ("aws_route_table", ReplaceGroupWords "ec2" 0) ].

Definition KindMap : gmap string string :=
  list_to_map
    [ ("aws_autoscaling_group", "AutoscalingGroup");
      ("aws_cloudformation_type", "CloudFormationType");
      ("aws_config_configuration_recorder_status", "AWSConfigurationRecorderStatus");
      ("aws_cloudtrail", "Trail") ].

Definition GroupKindOverrides : ResourceOption :=
  λ r,
    match GroupMap !! Name r with
    | Some f => gk ← f (Name r); mret (set_GroupKind gk.1 gk.2 r)
    | None => mret r
    end.

Definition KindOverrides : ResourceOption :=
  λ r,
    match KindMap !! Name r with
    | Some k => mret (set_Kind k r)
    | None => mret r
    end.

(** ** Field-level mutators *)

(** [comments.Option] values the module passes to the comment builder. *)
Inductive CommentOption : Type :=
| WithTFTag (tag : string).

(** The description attached to the injected [region] field; it ends with a
    line feed. *)
Definition regionText : string :=
  "Region is the region you'd like your resource to be created in."
  +:+ String "010"%char "".

(** [&schema.Schema{Type: schema.TypeString, Required: true, Description: d}]. *)
Definition regionSchema (d : string) : Schema :=
  {| Type_ := TypeString; Optional := false; Required := true;
     Description := d; Computed := false; ForceNew := false;
     MaxItems := 0; MinItems := 0; Deprecated := ""; Sensitive := false |}.

(** [t.Computed = true; t.Optional = false]. *)
Definition computedOnly (t : Schema) : Schema :=
  {| Type_ := Type_ t; Optional := false; Required := Required t;
     Description := Description t; Computed := true; ForceNew := ForceNew t;
     MaxItems := MaxItems t; MinItems := MinItems t;
     Deprecated := Deprecated t; Sensitive := Sensitive t |}.

(** The loop of [NamePrefixRemoval]: is some element equal to
    ["name_prefix"]? *)
Fixpoint hasNamePrefix (fields : list string) : bool :=
  match fields with
  | [] => false
  | f :: rest => if String.eqb f "name_prefix" then true else hasNamePrefix rest
  end.

Definition iamRole : string :=
  "github.com/crossplane-contrib/provider-jet-aws/apis/iam/v1alpha2.Role".
Definition ec2SecurityGroup : string :=
  "github.com/crossplane-contrib/provider-jet-aws/apis/ec2/v1alpha2.SecurityGroup".
Definition ec2VPC : string :=
  "github.com/crossplane-contrib/provider-jet-aws/apis/ec2/v1alpha2.VPC".
Definition ec2Subnet : string :=
  "github.com/crossplane-contrib/provider-jet-aws/apis/ec2/v1alpha2.Subnet".
Definition kmsKey : string :=
  "github.com/crossplane-contrib/provider-jet-aws/apis/kms/v1alpha2.Key".

(** [tjconfig.Reference{Type: t}]. *)
Definition refTo (t : string) : Reference :=
  {| RefType := t; Extractor := ""; RefFieldName := ""; SelectorFieldName := "" |}.

(** [tjconfig.Reference{Type: t, RefFieldName: rf, SelectorFieldName: sf}]. *)
Definition refNamed (t rf sf : string) : Reference :=
  {| RefType := t; Extractor := ""; RefFieldName := rf; SelectorFieldName := sf |}.

Section Mutators.

(** The comment builder of the generator library: [comments.New], which
    may reject its input, and the [String] method of the comment built. *)
Variable Comment : Type.
Variable comments_New : string → list CommentOption → Comment + string.
Variable Comment_String : Comment → string.

(** [tjconfig.IdentifierFromProvider], a constant of the generator
    library. *)
Variable IdentifierFromProvider : ExternalNameConfig.

(** [common.PathARNExtractor], a constant of package [config/common]. *)
Variable PathARNExtractor : string.

Definition RegionAddition : ResourceOption :=
  λ r,
    if String.eqb (ShortGroup r) "iam" then mret r
    else
      match comments_New regionText [WithTFTag "-"] with
      | inr err => Panic ("cannot build comment for region: " +:+ err)
      | inl comment =>
          mret (set_Schema
                  (<["region" := regionSchema (Comment_String comment)]> (schemaOf r)) r)
      end.

Definition TagsAllRemoval : ResourceOption :=
  λ r,
    match schemaOf r !! "tags_all" with
    | Some t => mret (set_Schema (<["tags_all" := computedOnly t]> (schemaOf r)) r)
    | None => mret r
    end.

Definition IdentifierAssignedByAWS : ResourceOption :=
  λ r, mret (set_ExternalName IdentifierFromProvider r).

Definition NamePrefixRemoval : ResourceOption :=
  λ r,
    if hasNamePrefix (OmittedFields (ExternalName r)) then mret r
    else
      mret (set_ExternalName
              {| Fns := Fns (ExternalName r);
                 OmittedFields := OmittedFields (ExternalName r) ++ ["name_prefix"];
                 DisableNameInitializer := DisableNameInitializer (ExternalName r) |}
              r).

(** One iteration of the loop of [KnownReferencers] over the schema entry
    [(k, s)]: [refs] is [r.References] before the iteration, the result is
    [r.References] after it. *)
Definition referencerStep (group : string) (refs : gmap string Reference)
    (entry : string * Schema) : gmap string Reference :=
  let '(k, s) := entry in
  if (Computed s && negb (Optional s)) || Sensitive s then refs
  else
    let refs :=
      if gostrings.HasSuffix k "role_arn" then
        <[k := {| RefType := iamRole; Extractor := PathARNExtractor;
                  RefFieldName := ""; SelectorFieldName := "" |}]> refs
      else if gostrings.HasSuffix k "security_group_ids" then
        <[k := refNamed ec2SecurityGroup
                 (gostrings.TrimSuffix (name.Camel (name.NewFromSnake k)) "s" +:+ "Refs")
                 (gostrings.TrimSuffix (name.Camel (name.NewFromSnake k)) "s" +:+ "Selector")]>
          refs
      else refs in
    if String.eqb k "vpc_id" then
      let refs := <["vpc_id" := refNamed ec2VPC "VpcIdRef" "VpcIdSelector"]> refs in
      if String.eqb group "ec2"
      then <["vpc_id" := refNamed "VPC" "VpcIdRef" "VpcIdSelector"]> refs
      else refs
    else if String.eqb k "subnet_ids" then
      let refs := <["subnet_ids" := refNamed ec2Subnet "SubnetIdRefs" "SubnetIdSelector"]> refs in
      if String.eqb group "ec2"
      then <["subnet_ids" := refNamed "Subnet" "SubnetIdRefs" "SubnetIdSelector"]> refs
      else refs
    else if String.eqb k "subnet_id" then <["subnet_id" := refTo ec2Subnet]> refs
    else if String.eqb k "security_group_id" then
      <["security_group_id" := refTo ec2SecurityGroup]> refs
    else if String.eqb k "kms_key_id" then <["kms_key_id" := refTo kmsKey]> refs
    else if String.eqb k "kms_key_arn" then <["kms_key_arn" := refTo kmsKey]> refs
    else if String.eqb k "kms_key" then <["kms_key" := refTo kmsKey]> refs
    else refs.

(** A field gets no referencer when it is a status field (computed and not
    optional) or sensitive: the guard at the head of the loop body. *)
Definition skipped (s : Schema) : bool :=
  (Computed s && negb (Optional s)) || Sensitive s.

(** What one iteration leaves under its own key, started from no
    references at all. *)
Definition wired (group k : string) (s : Schema) : option Reference :=
  referencerStep group ∅ (k, s) !! k.

(** The loop run over the schema entries in the order [entries].  Go leaves
    the order of a [range] over a map unspecified: [entries] is any
    enumeration of the schema map. *)
Definition KnownReferencersIn (entries : list (string * Schema)) (r : Resource) : Resource :=
  set_References (foldl (referencerStep (ShortGroup r)) (References r) entries) r.

Definition KnownReferencers : ResourceOption :=
  λ r, mret (KnownReferencersIn (map_to_list (schemaOf r)) r).

(** ** The default option chain *)

(** The options in the order [GetProvider] lists them. *)
Definition defaultOptions : list ResourceOption :=
  [ GroupKindOverrides; KindOverrides; RegionAddition; TagsAllRemoval;
    IdentifierAssignedByAWS; NamePrefixRemoval; KnownReferencers ].

(** [for _, f := range opts { f(r) }]. *)
Fixpoint applyOptions (opts : list ResourceOption) (r : Resource) : result Resource :=
  match opts with
  | [] => mret r
  | f :: rest => r' ← f r; applyOptions rest r'
  end.

(** The descriptor [tjconfig.DefaultResource] builds from the resource name
    and its Terraform schema before it runs the options; the defaults it
    derives are the generator library's. *)
Variable initialResource : string → TFResource → Resource.

(** Modelled from the spec: [tjconfig.DefaultResource] of the generator
    library, whose source is not part of this repository.  It builds the
    descriptor and invokes the configured chain of mutators on it in the
    order given (section 2). *)
Definition DefaultResource (name : string) (terraformResource : TFResource)
    (opts : list ResourceOption) : result Resource :=
  applyOptions opts (initialResource name terraformResource).

(** [defaultResourceFn] of [GetProvider]. *)
Definition defaultResourceFn (name : string) (terraformResource : TFResource)
    : result Resource :=
  DefaultResource name terraformResource defaultOptions.

End Mutators.

(** ** Counting *)

(** The number of schema entries named [k]. *)
Definition fieldCount (k : string) (m : gmap string Schema) : nat :=
  length (filter (λ e, e.1 = k) (map_to_list m)).

(** The number of elements of [l] equal to [x]. *)
Definition occurrences (x : string) (l : list string) : nat :=
  length (filter (λ f, f = x) l).

(** ** Statements about the overrides *)

(** The kind of section 4.2, in the specification's words: strip the vendor
    prefix [aws_] from the name, split the remainder on [_], discard [count]
    leading words, join the rest and convert it by the naming transform. *)
Definition kindFromWords (count : nat) (resource : string) : string :=
  let remainder := gostrings.TrimPrefix resource "aws_" in
  let words := gostrings.Split remainder "_"%char in
  let kept := drop count words in
  name.Camel (name.NewFromSnake (gostrings.Join kept "_")).

(** A mutator is idempotent when a second application, to the descriptor the
    first one returned, returns that descriptor again. *)
Definition idempotent (f : ResourceOption) : Prop :=
  ∀ d d1, f d = Ok d1 → f d1 = Ok d1.

(** A mutator is total when it returns a descriptor for every descriptor. *)
Definition total (f : ResourceOption) : Prop :=
  ∀ d, ∃ d1, f d = Ok d1.

(** ** Collaborators and descriptors used in the examples *)

(** A comment builder that accepts every text: the comment is the text with
    its options, rendered as the text followed by one marker line per
    option. *)
Definition acceptingBuilder (text : string) (opts : list CommentOption)
    : (string * list CommentOption) + string :=
  inl (text, opts).

Definition renderOption (o : CommentOption) : string :=
  match o with
  | WithTFTag tag => "+terrajet:crd:field:TFTag=" +:+ tag +:+ String "010"%char ""
  end.

Definition renderComment (c : string * list CommentOption) : string :=
  c.1 +:+ String.concat "" (map renderOption c.2).

(** A comment builder that rejects every text. *)
Definition rejectingBuilder (text : string) (opts : list CommentOption)
    : (string * list CommentOption) + string :=
  inr "malformed marker".

(** An external-name strategy with nothing omitted, as the library's
    [IdentifierFromProvider] is. *)
Definition fromProvider : ExternalNameConfig :=
  {| Fns := IdentifierFromProviderFns; OmittedFields := [];
     DisableNameInitializer := true |}.

Definition nameAsIdentifier : ExternalNameConfig :=
  {| Fns := NameAsIdentifierFns; OmittedFields := ["name"; "name_prefix"];
     DisableNameInitializer := false |}.

Definition arnExtractor : string :=
  "github.com/crossplane-contrib/provider-jet-aws4/config/common.ARNExtractor()".

(** A descriptor with the given name, group and schema and nothing else. *)
Definition descriptor (n g : string) (fields : list (string * Schema)) : Resource :=
  {| Name := n; ShortGroup := g; Kind := ""; Version := "v1alpha1";
     ExternalName := nameAsIdentifier; References := ∅;
     TerraformResource := {| SchemaMap := list_to_map fields |} |}.

(** An optional string field. *)
Definition optionalString : Schema :=
  {| Type_ := TypeString; Optional := true; Required := false;
     Description := ""; Computed := false; ForceNew := false;
     MaxItems := 0; MinItems := 0; Deprecated := ""; Sensitive := false |}.

(** A sensitive optional string field. *)
Definition secretString : Schema :=
  {| Type_ := TypeString; Optional := true; Required := false;
     Description := ""; Computed := false; ForceNew := false;
     MaxItems := 0; MinItems := 0; Deprecated := ""; Sensitive := true |}.

(** An optional set field, as a list of security group ids is. *)
Definition optionalSet : Schema :=
  {| Type_ := TypeSet; Optional := true; Required := false;
     Description := ""; Computed := false; ForceNew := false;
     MaxItems := 0; MinItems := 0; Deprecated := ""; Sensitive := false |}.

(** A field [region] as a provider might define it itself: an optional,
    computed list that forces a new resource. *)
Definition ownRegion : Schema :=
  {| Type_ := TypeList; Optional := true; Required := false;
     Description := "regions to replicate to"; Computed := true;
     ForceNew := true; MaxItems := 3; MinItems := 1; Deprecated := "";
     Sensitive := false |}.

(** A settable [tags_all] field. *)
Definition settableTags : Schema :=
  {| Type_ := TypeMap; Optional := true; Required := false;
     Description := ""; Computed := true; ForceNew := false;
     MaxItems := 0; MinItems := 0; Deprecated := ""; Sensitive := false |}.

(** A descriptor of the [iam] group without schema fields whose omitted
    fields name ["name_prefix"] twice. *)
Definition iamRoleDescriptor : Resource :=
  {| Name := "aws_iam_role"; ShortGroup := "iam"; Kind := "Role";
     Version := "v1alpha1";
     ExternalName := {| Fns := NameAsIdentifierFns;
                        OmittedFields := ["name_prefix"; "name_prefix"];
                        DisableNameInitializer := false |};
     References := ∅;
     TerraformResource := {| SchemaMap := ∅ |} |}.

Definition dbInstance : Resource :=
  descriptor "aws_db_instance" "rds" [("db_security_group_ids", optionalSet)].

Definition subnetInEc2 : Resource :=
  descriptor "aws_subnet" "ec2" [("vpc_id", optionalString)].

Definition clusterInEks : Resource :=
  descriptor "aws_eks_cluster" "eks" [("vpc_id", optionalString)].

Definition withOwnRegion : Resource :=
  descriptor "aws_s3_bucket" "s3" [("region", ownRegion); ("bucket", optionalString)].

Definition withSecretKey : Resource :=
  descriptor "aws_db_instance" "rds" [("kms_key_id", secretString)].

Definition withTags : Resource :=
  descriptor "aws_vpc" "ec2" [("tags_all", settableTags); ("tags", optionalString)].

(** The descriptor a generator could start from: the name and the schema
    given, no group or kind yet, the name used as identifier. *)
Definition plainResource (n : string) (tr : TFResource) : Resource :=
  {| Name := n; ShortGroup := ""; Kind := ""; Version := "v1alpha1";
     ExternalName := nameAsIdentifier; References := ∅;
     TerraformResource := tr |}.

(** The schema of a route table, cut down to two fields. *)
Definition routeTableSchema : TFResource :=
  {| SchemaMap := list_to_map [("vpc_id", optionalString);
                               ("name_prefix", optionalString)] |}.

(** ** The rules of the reference wiring, by name *)

(** The case labels of the second switch of [KnownReferencers]. *)
Definition exactNames : list string :=
  ["vpc_id"; "subnet_ids"; "subnet_id"; "security_group_id";
   "kms_key_id"; "kms_key_arn"; "kms_key"].

(** A required string field. *)
Definition requiredString : Schema :=
  {| Type_ := TypeString; Optional := false; Required := true;
     Description := ""; Computed := false; ForceNew := false;
     MaxItems := 0; MinItems := 0; Deprecated := ""; Sensitive := false |}.

(** A Lambda function in its own group, with a role, subnets and a key. *)
Definition lambdaFunction : Resource :=
  descriptor "aws_lambda_function" "lambda"
    [("execution_role_arn", requiredString); ("subnet_ids", optionalSet);
     ("kms_key_arn", optionalString)].

(** A network interface of the [ec2] group. *)
Definition networkInterface : Resource :=
  descriptor "aws_network_interface" "ec2"
    [("subnet_id", requiredString); ("subnet_ids", optionalSet);
     ("security_group_id", optionalString)].

(** A descriptor that already holds a reference for a field its schema does
    not have. *)
Definition withForeignReference : Resource :=
  {| Name := "aws_eks_cluster"; ShortGroup := "eks"; Kind := "Cluster";
     Version := "v1alpha1"; ExternalName := nameAsIdentifier;
     References := {[ "cluster_name" := refTo "Cluster" ]};
     TerraformResource := {| SchemaMap := list_to_map [("vpc_id", optionalString)] |} |}.

(** The number of bytes of [s] equal to [c]. *)
Fixpoint countByte (c : ascii) (s : string) : nat :=
  match s with
  | EmptyString => 0
  | String a s' => (if Ascii.eqb a c then 1 else 0) + countByte c s'
  end.

(** The external name [NamePrefixRemoval] leaves for the external name [e]. *)
Definition omitNamePrefix (e : ExternalNameConfig) : ExternalNameConfig :=
  if hasNamePrefix (OmittedFields e) then e
  else {| Fns := Fns e;
          OmittedFields := OmittedFields e ++ ["name_prefix"];
          DisableNameInitializer := DisableNameInitializer e |}.

(** The schema [TagsAllRemoval] leaves for the schema [m]. *)
Definition neutralizeTagsAll (m : gmap string Schema) : gmap string Schema :=
  match m !! "tags_all" with
  | Some t => <["tags_all" := computedOnly t]> m
  | None => m
  end.

(** An initial descriptor of the [iam] group. *)
Definition iamResource (n : string) (tr : TFResource) : Resource :=
  {| Name := n; ShortGroup := "iam"; Kind := "Role"; Version := "v1alpha1";
     ExternalName := nameAsIdentifier; References := ∅;
     TerraformResource := tr |}.

(** An initial descriptor that starts out in a group of its own and already
    holds a reference. *)
Definition routeResource (n : string) (tr : TFResource) : Resource :=
  {| Name := n; ShortGroup := "route"; Kind := "Table"; Version := "v1alpha1";
     ExternalName := nameAsIdentifier;
     References := {[ "gateway_id" := refTo "InternetGateway" ]};
     TerraformResource := tr |}.

(** A schema with a [tags_all] field, a [region] field of its own and a
    [vpc_id]. *)
Definition taggedSchema : TFResource :=
  {| SchemaMap := list_to_map [("tags_all", settableTags); ("region", ownRegion);
                               ("vpc_id", optionalString)] |}.

(** ** Proof tactics *)

(** Unfolding of the mutators by name. *)
Ltac open_RegionAddition := unfold RegionAddition.
Ltac open_chain := unfold defaultResourceFn, DefaultResource; cbn [defaultOptions applyOptions].
Ltac open_chain_in H := unfold defaultResourceFn, DefaultResource in H; cbn [defaultOptions applyOptions] in H.
Ltac open_referencerStep := unfold wired, referencerStep.
Ltac open_options := cbn [defaultOptions applyOptions].
Ltac open_options_in H := cbn [defaultOptions applyOptions] in H.
Ltac open_KnownReferencers :=
  unfold KnownReferencers, KnownReferencersIn; cbn [set_References References].
Ltac open_KnownReferencers_in H :=
  unfold KnownReferencers, KnownReferencersIn in H; cbn [set_References References] in H.

(** A test [String.eqb k lit = true] names the key: replace [k] by the
    literal everywhere. *)
Ltac literal_key H :=
  apply String.eqb_eq in H; subst; try discriminate.

(** The key is one of the exact names: neither suffix rule applies to it,
    and what the second switch stores (once, or twice in group [ec2]) is
    read back under that name. *)
Ltac exact_name_rule H :=
  literal_key H; vm_compute (gostrings.HasSuffix _ _);
  try destruct (String.eqb _ "ec2");
  by rewrite ?insert_insert_eq, lookup_insert_eq.

(** ** Unit checks of the definitions *)

Example Split_example :
  gostrings.Split "route53_resolver_rule" "_"%char = ["route53"; "resolver"; "rule"].
Proof. reflexivity. Qed.

Example Split_empty : gostrings.Split "" "_"%char = [""].
Proof. reflexivity. Qed.

Example Join_example : gostrings.Join ["route"; "table"] "_" = "route_table".
Proof. reflexivity. Qed.

Example TrimPrefix_example : gostrings.TrimPrefix "aws_route_table" "aws_" = "route_table".
Proof. reflexivity. Qed.

Example TrimSuffix_example : gostrings.TrimSuffix "SubnetIds" "s" = "SubnetId".
Proof. reflexivity. Qed.

Example Camel_example : name.Camel (name.NewFromSnake "resolver_rule") = "ResolverRule".
Proof. reflexivity. Qed.

Example Camel_edges : name.Camel (name.NewFromSnake "__a__b_") = "AB".
Proof. reflexivity. Qed.

Example ReplaceGroupWords_example :
  ReplaceGroupWords "route53resolver" 2 "aws_route53_resolver_rule"
  = Ok ("route53resolver", "Rule").
Proof. reflexivity. Qed.

Example ReplaceGroupWords_out_of_range :
  ReplaceGroupWords "ec2" 5 "aws_route_table"
  = Panic "runtime error: slice bounds out of range".
Proof. reflexivity. Qed.

Example default_chain_route_table :
  ∃ r, defaultResourceFn _ acceptingBuilder renderComment fromProvider arnExtractor
         plainResource "aws_route_table" routeTableSchema = Ok r
    ∧ ShortGroup r = "ec2" ∧ Kind r = "RouteTable"
    ∧ ExternalName r
      = {| Fns := IdentifierFromProviderFns; OmittedFields := ["name_prefix"];
           DisableNameInitializer := true |}
    ∧ References r !! "vpc_id" = Some (refNamed "VPC" "VpcIdRef" "VpcIdSelector")
    ∧ References r !! "name_prefix" = None
    ∧ Required <$> schemaOf r !! "region" = Some true.
Proof. eexists. repeat split; reflexivity. Qed.

Example reject_aborts_chain :
  defaultResourceFn _ rejectingBuilder renderComment fromProvider arnExtractor
    plainResource "aws_route_table" routeTableSchema
  = Panic "cannot build comment for region: malformed marker".
Proof. reflexivity. Qed.

(** ** Facts about the string functions *)

Module gostrings_facts.
Import gostrings.

Lemma drop_bytes_empty n : drop_bytes n "" = "".
Proof. by destruct n. Qed.

Lemma drop_bytes_length n s :
  String.length (drop_bytes n s) = (String.length s - n)%nat.
Proof.
  revert s; induction n as [|n IH]; intros [|c s]; simpl; auto with lia.
Qed.

Lemma drop_bytes_add m n s :
  drop_bytes n (drop_bytes m s) = drop_bytes (m + n) s.
Proof.
  revert s; induction m as [|m IH]; intros s; simpl; [done|].
  destruct s as [|c s]; [apply drop_bytes_empty | apply IH].
Qed.

Lemma HasSuffix_true s suffix :
  HasSuffix s suffix = true ↔
  (String.length suffix ≤ String.length s)%nat
  ∧ drop_bytes (String.length s - String.length suffix) s = suffix.
Proof.
  unfold HasSuffix. by rewrite andb_true_iff, Nat.leb_le, String.eqb_eq.
Qed.

(** Two suffixes of one string: the shorter is a suffix of the longer. *)
Lemma HasSuffix_nested s a b :
  HasSuffix s a = true → HasSuffix s b = true →
  (String.length b ≤ String.length a)%nat →
  HasSuffix a b = true.
Proof.
  intros [Hla Ha]%HasSuffix_true [Hlb Hb]%HasSuffix_true Hab.
  apply HasSuffix_true; split; [done|].
  trans (drop_bytes (String.length a - String.length b)
           (drop_bytes (String.length s - String.length a) s)).
  { by rewrite Ha. }
  rewrite drop_bytes_add.
  replace (String.length s - String.length a
           + (String.length a - String.length b))%nat
    with (String.length s - String.length b)%nat by lia.
  exact Hb.
Qed.

Lemma suffix_security_group_ids_not_role_arn k :
  HasSuffix k "security_group_ids" = true → HasSuffix k "role_arn" = false.
Proof.
  intros H. destruct (HasSuffix k "role_arn") eqn:E; [|done].
  pose proof (HasSuffix_nested _ _ _ H E) as Hn.
  vm_compute in Hn. specialize (Hn ltac:(lia)). discriminate.
Qed.

Lemma app_cons a s t : String a s +:+ t = String a (s +:+ t).
Proof. reflexivity. Qed.

Lemma length_app s t :
  String.length (s +:+ t) = (String.length s + String.length t)%nat.
Proof.
  induction s as [|a s IH]; [done|]. rewrite app_cons. cbn [String.length].
  by rewrite IH.
Qed.

Lemma take_drop n s : take_bytes n s +:+ drop_bytes n s = s.
Proof.
  revert s; induction n as [|n IH]; intros [|a s]; try reflexivity.
  cbn [take_bytes drop_bytes]. by rewrite app_cons, IH.
Qed.

Lemma app_inv_tail x y s : x +:+ s = y +:+ s → x = y.
Proof.
  revert y; induction x as [|a x IH]; intros [|b y] H.
  - done.
  - apply (f_equal String.length) in H.
    rewrite !length_app in H. cbn [String.length] in H. lia.
  - apply (f_equal String.length) in H.
    rewrite !length_app in H. cbn [String.length] in H. lia.
  - rewrite !app_cons in H. injection H as -> H. f_equal. by apply IH.
Qed.

(** What [TrimSuffix] returned tells what it was given: the result itself,
    or the result followed by the suffix. *)
Lemma TrimSuffix_inv c suffix x :
  TrimSuffix c suffix = x → c = x ∨ c = x +:+ suffix.
Proof.
  unfold TrimSuffix. destruct (HasSuffix c suffix) eqn:E; [|by left].
  apply HasSuffix_true in E as [_ E]. intros <-. right.
  transitivity (take_bytes (String.length c - String.length suffix) c
                +:+ drop_bytes (String.length c - String.length suffix) c).
  - symmetry. apply take_drop.
  - by rewrite E.
Qed.

(** The field names claimed for [db_security_group_ids] come out of the rule
    [TrimSuffix(camel, "s") + "Refs"] only for a PascalCase form without the
    word [Id]: no conversion of the field name that keeps its three words
    gives them. *)
Lemma DbSecurityGroupRefs_only_from camel :
  TrimSuffix camel "s" +:+ "Refs" = "DbSecurityGroupRefs" →
  camel = "DbSecurityGroup" ∨ camel = "DbSecurityGroups".
Proof.
  intros H. change "DbSecurityGroupRefs" with ("DbSecurityGroup" +:+ "Refs") in H.
  apply app_inv_tail in H. by apply TrimSuffix_inv in H.
Qed.

Lemma Split_cons_form s sep : ∃ w ws, Split s sep = w :: ws.
Proof.
  induction s as [|c s (w & ws & IH)]; [by eexists _, _|].
  cbn [Split]. destruct (Ascii.eqb c sep); [by eexists _, _|].
  rewrite IH. by eexists _, _.
Qed.

Lemma Split_length s sep : length (Split s sep) = S (countByte sep s).
Proof.
  induction s as [|c s IH]; [done|]. cbn [Split countByte].
  destruct (Ascii.eqb c sep).
  - cbn. by rewrite IH.
  - destruct (Split s sep) as [|w ws]; cbn in *; [discriminate | lia].
Qed.

(** Joining what [Split] cut gives the string back. *)
Lemma Join_Split s sep : Join (Split s sep) (String sep "") = s.
Proof.
  induction s as [|c s IH]; [done|]. cbn [Split].
  destruct (Split_cons_form s sep) as (w & ws & E). rewrite E in IH |- *.
  destruct (Ascii.eqb c sep) eqn:Ec.
  - apply Ascii.eqb_eq in Ec as ->.
    change (Join ("" :: w :: ws) (String sep ""))
      with (String sep (Join (w :: ws) (String sep ""))).
    by rewrite IH.
  - destruct ws as [|w' ws]; [cbn in *; by rewrite IH|].
    change (Join (String c w :: w' :: ws) (String sep ""))
      with (String c (Join (w :: w' :: ws) (String sep ""))).
    by rewrite IH.
Qed.


Lemma app_assoc s t u : (s +:+ t) +:+ u = s +:+ (t +:+ u).
Proof.
  induction s as [|a s IH]; [done|]. by rewrite !app_cons, IH.
Qed.

Lemma drop_app p s : drop_bytes (String.length p) (p +:+ s) = s.
Proof. induction p as [|a p IH]; [done|]. by rewrite app_cons. Qed.

Lemma take_app p s : take_bytes (String.length p) (p +:+ s) = p.
Proof.
  induction p as [|a p IH]; [by destruct s|].
  rewrite app_cons. cbn [String.length take_bytes]. by rewrite IH.
Qed.

Lemma HasSuffix_app p s : HasSuffix (p +:+ s) s = true.
Proof.
  apply HasSuffix_true. rewrite length_app. split; [lia|].
  replace (String.length p + String.length s - String.length s)%nat
    with (String.length p) by lia.
  apply drop_app.
Qed.

Lemma TrimSuffix_app p s : TrimSuffix (p +:+ s) s = p.
Proof.
  unfold TrimSuffix. rewrite HasSuffix_app, length_app.
  replace (String.length p + String.length s - String.length s)%nat
    with (String.length p) by lia.
  apply take_app.
Qed.

(** The rule [TrimSuffix(camel, "s") + "Refs"] on a PascalCase form that
    ends with the word [Ids], whatever comes before it: only the [s] goes,
    so the names end with [IdRefs] and [IdSelector] and are not the ones
    without the word [Id]. *)
Lemma names_keep_Id camel :
  HasSuffix camel "Ids" = true →
  HasSuffix (TrimSuffix camel "s" +:+ "Refs") "IdRefs" = true
  ∧ HasSuffix (TrimSuffix camel "s" +:+ "Selector") "IdSelector" = true
  ∧ TrimSuffix camel "s" +:+ "Refs" ≠ "DbSecurityGroupRefs"
  ∧ TrimSuffix camel "s" +:+ "Selector" ≠ "DbSecurityGroupSelector".
Proof.
  intros [_ Hd]%HasSuffix_true.
  pose proof (take_drop (String.length camel - String.length "Ids") camel) as Hc.
  rewrite Hd in Hc. set (p := take_bytes _ camel) in Hc. clearbody p. subst camel.
  change "Ids" with ("Id" +:+ "s").
  rewrite <- (app_assoc p "Id" "s"), TrimSuffix_app, !app_assoc.
  split; [apply (HasSuffix_app p "IdRefs")|].
  split; [apply (HasSuffix_app p "IdSelector")|].
  split; intros H.
  - change "DbSecurityGroupRefs" with ("DbSecurityGroup" +:+ "Refs") in H.
    rewrite <- (app_assoc p "Id" "Refs") in H. apply app_inv_tail in H.
    pose proof (HasSuffix_app p "Id") as Hs. rewrite H in Hs. discriminate.
  - change "DbSecurityGroupSelector" with ("DbSecurityGroup" +:+ "Selector") in H.
    rewrite <- (app_assoc p "Id" "Selector") in H. apply app_inv_tail in H.
    pose proof (HasSuffix_app p "Id") as Hs. rewrite H in Hs. discriminate.
Qed.

End gostrings_facts.

(** ** Facts about lists of names *)

Lemma exactNames_spec k :
  k ∈ exactNames ↔
  k = "vpc_id" ∨ k = "subnet_ids" ∨ k = "subnet_id" ∨ k = "security_group_id"
  ∨ k = "kms_key_id" ∨ k = "kms_key_arn" ∨ k = "kms_key".
Proof.
  unfold exactNames. rewrite !elem_of_cons, elem_of_nil. tauto.
Qed.

Lemma not_exact_eqb k :
  k ∉ exactNames →
  String.eqb k "vpc_id" = false ∧ String.eqb k "subnet_ids" = false
  ∧ String.eqb k "subnet_id" = false ∧ String.eqb k "security_group_id" = false
  ∧ String.eqb k "kms_key_id" = false ∧ String.eqb k "kms_key_arn" = false
  ∧ String.eqb k "kms_key" = false.
Proof.
  intros H. repeat split; apply String.eqb_neq; intros ->; apply H;
    apply exactNames_spec; tauto.
Qed.

Lemma hasNamePrefix_elem l : hasNamePrefix l = true ↔ "name_prefix" ∈ l.
Proof.
  induction l as [|f l IH]; cbn [hasNamePrefix].
  - split; [done | by intros ?%elem_of_nil].
  - rewrite elem_of_cons. destruct (String.eqb f "name_prefix") eqn:E.
    + apply String.eqb_eq in E as ->. tauto.
    + apply String.eqb_neq in E. rewrite IH. split; [tauto|].
      intros [?|?]; [congruence | tauto].
Qed.

(** ** Properties of the mutators *)

Section Properties.

Context (Comment : Type)
        (comments_New : string → list CommentOption → Comment + string)
        (Comment_String : Comment → string)
        (IdentifierFromProvider : ExternalNameConfig)
        (PathARNExtractor : string)
        (initialResource : string → TFResource → Resource).

Local Abbreviation RegionAddition :=
  (RegionAddition Comment comments_New Comment_String).
Local Abbreviation IdentifierAssignedByAWS :=
  (IdentifierAssignedByAWS IdentifierFromProvider).
Local Abbreviation referencerStep := (referencerStep PathARNExtractor).
Local Abbreviation wired := (wired PathARNExtractor).
Local Abbreviation KnownReferencersIn := (KnownReferencersIn PathARNExtractor).
Local Abbreviation KnownReferencers := (KnownReferencers PathARNExtractor).
Local Abbreviation defaultOptions :=
  (defaultOptions Comment comments_New Comment_String
     IdentifierFromProvider PathARNExtractor).
Local Abbreviation defaultResourceFn :=
  (defaultResourceFn Comment comments_New Comment_String
     IdentifierFromProvider PathARNExtractor initialResource).

(** *** Reference wiring, one schema entry at a time *)

Lemma referencerStep_own_key group refs k s :
  referencerStep group refs (k, s)
  = match wired group k s with
    | Some v => <[k := v]> refs
    | None => refs
    end.
Proof.
  open_referencerStep.
  destruct ((Computed s && negb (Optional s)) || Sensitive s).
  { by rewrite lookup_empty. }
  destruct (String.eqb k "vpc_id") eqn:E1; [exact_name_rule E1|].
  destruct (String.eqb k "subnet_ids") eqn:E2; [exact_name_rule E2|].
  destruct (String.eqb k "subnet_id") eqn:E3; [exact_name_rule E3|].
  destruct (String.eqb k "security_group_id") eqn:E4; [exact_name_rule E4|].
  destruct (String.eqb k "kms_key_id") eqn:E5; [exact_name_rule E5|].
  destruct (String.eqb k "kms_key_arn") eqn:E6; [exact_name_rule E6|].
  destruct (String.eqb k "kms_key") eqn:E7; [exact_name_rule E7|].
  destruct (gostrings.HasSuffix k "role_arn").
  { by rewrite lookup_insert_eq. }
  destruct (gostrings.HasSuffix k "security_group_ids").
  { by rewrite lookup_insert_eq. }
  by rewrite lookup_empty.
Qed.

Lemma wired_skipped group k s : skipped s = true → wired group k s = None.
Proof.
  unfold skipped; open_referencerStep. intros ->.
  apply lookup_empty.
Qed.

(** The loop over a duplicate-free enumeration of entries, read back one key
    at a time: the key of an entry holds what its own iteration wired, any
    other key holds what it held before. *)
Lemma foldl_referencerStep_lookup group (entries : list (string * Schema)) :
  NoDup entries.*1 →
  ∀ (refs : gmap string Reference) j,
    foldl (referencerStep group) refs entries !! j
    = match (list_to_map entries : gmap string Schema) !! j ≫= wired group j with
      | Some v => Some v
      | None => refs !! j
      end.
Proof.
  induction entries as [|[k s] entries IH]; intros Hnd refs j.
  { cbn. by rewrite lookup_empty. }
  cbn [fmap list_fmap fst] in Hnd. apply NoDup_cons in Hnd as [Hk Hnd].
  cbn [foldl list_to_map foldr]. rewrite (IH Hnd). cbn [fst snd uncurry].
  rewrite referencerStep_own_key.
  destruct (decide (k = j)) as [->|Hne].
  - rewrite lookup_insert_eq.
    rewrite (not_elem_of_list_to_map_1 entries j Hk). cbn.
    destruct (wired group j s); [by rewrite lookup_insert_eq | done].
  - rewrite lookup_insert_ne by done.
    destruct (list_to_map entries !! j ≫= wired group j); [done|].
    destruct (wired group k s); [by rewrite lookup_insert_ne | done].
Qed.

(** The references after [KnownReferencersIn], for any enumeration of the
    schema map. *)
Lemma KnownReferencersIn_lookup entries r j :
  entries ≡ₚ map_to_list (schemaOf r) →
  References (KnownReferencersIn entries r) !! j
  = match schemaOf r !! j ≫= wired (ShortGroup r) j with
    | Some v => Some v
    | None => References r !! j
    end.
Proof.
  intros Hp. open_KnownReferencers.
  assert (NoDup entries.*1) as Hnd.
  { rewrite Hp. apply NoDup_fst_map_to_list. }
  rewrite (foldl_referencerStep_lookup _ _ Hnd).
  by rewrite (list_to_map_proper _ _ Hnd Hp), list_to_map_to_list.
Qed.

(** The order in which the loop visits the schema map does not matter. *)
Lemma KnownReferencersIn_order entries r :
  entries ≡ₚ map_to_list (schemaOf r) →
  KnownReferencers r = Ok (KnownReferencersIn entries r).
Proof.
  intros Hp.
  pose proof (λ j, KnownReferencersIn_lookup entries r j Hp) as H1.
  pose proof (λ j, KnownReferencersIn_lookup (map_to_list (schemaOf r)) r j
                     ltac:(done)) as H2.
  open_KnownReferencers_in H1. open_KnownReferencers_in H2. open_KnownReferencers.
  assert (foldl (referencerStep (ShortGroup r)) (References r) (map_to_list (schemaOf r))
          = foldl (referencerStep (ShortGroup r)) (References r) entries) as ->; [|done].
  apply map_eq; intros j. by rewrite H1, H2.
Qed.

Lemma KnownReferencers_lookup r r' j :
  KnownReferencers r = Ok r' →
  References r' !! j
  = match schemaOf r !! j ≫= wired (ShortGroup r) j with
    | Some v => Some v
    | None => References r !! j
    end.
Proof.
  intros [= <-]. by apply KnownReferencersIn_lookup.
Qed.

Lemma KnownReferencers_frame r r' :
  KnownReferencers r = Ok r' →
  Name r' = Name r ∧ ShortGroup r' = ShortGroup r ∧ Kind r' = Kind r
  ∧ Version r' = Version r ∧ ExternalName r' = ExternalName r
  ∧ TerraformResource r' = TerraformResource r.
Proof. by intros [= <-]. Qed.

Lemma not_skipped s :
  Computed s && negb (Optional s) = false → Sensitive s = false →
  skipped s = false.
Proof. unfold skipped. by intros -> ->. Qed.

Lemma wired_vpc_id group s :
  skipped s = false →
  wired group "vpc_id" s
  = Some (refNamed (if String.eqb group "ec2" then "VPC" else ec2VPC)
            "VpcIdRef" "VpcIdSelector").
Proof.
  unfold skipped; open_referencerStep. intros ->.
  vm_compute (gostrings.HasSuffix _ _). cbn [String.eqb Ascii.eqb Bool.eqb].
  destruct (String.eqb group "ec2");
    by rewrite ?insert_insert_eq, lookup_insert_eq.
Qed.

Lemma wired_security_group_ids group k s :
  skipped s = false →
  gostrings.HasSuffix k "security_group_ids" = true →
  wired group k s
  = Some (refNamed ec2SecurityGroup
            (gostrings.TrimSuffix (name.Camel (name.NewFromSnake k)) "s" +:+ "Refs")
            (gostrings.TrimSuffix (name.Camel (name.NewFromSnake k)) "s" +:+ "Selector")).
Proof.
  unfold skipped; open_referencerStep. intros -> Hs.
  rewrite (gostrings_facts.suffix_security_group_ids_not_role_arn k Hs), Hs.
  destruct (String.eqb k "vpc_id") eqn:E1; [literal_key E1|].
  destruct (String.eqb k "subnet_ids") eqn:E2; [literal_key E2|].
  destruct (String.eqb k "subnet_id") eqn:E3; [literal_key E3|].
  destruct (String.eqb k "security_group_id") eqn:E4; [literal_key E4|].
  destruct (String.eqb k "kms_key_id") eqn:E5; [literal_key E5|].
  destruct (String.eqb k "kms_key_arn") eqn:E6; [literal_key E6|].
  destruct (String.eqb k "kms_key") eqn:E7; [literal_key E7|].
  by rewrite lookup_insert_eq.
Qed.

(** *** Reference wiring: the claims *)

(** C6.  A field named exactly [vpc_id] that is neither computed-only nor
    sensitive is wired to the VPC type: by its short name ["VPC"] when the
    descriptor's group is [ec2], by the fully qualified type path in any
    other group; the reference and selector field names are [VpcIdRef] and
    [VpcIdSelector] in both cases. *)
Theorem vpc_id_reference_by_group (r : Resource) (s : Schema) :
  schemaOf r !! "vpc_id" = Some s →
  Computed s && negb (Optional s) = false →
  Sensitive s = false →
  ∃ r', KnownReferencers r = Ok r'
    ∧ (ShortGroup r = "ec2" →
       References r' !! "vpc_id"
       = Some {| RefType := "VPC"; Extractor := "";
                 RefFieldName := "VpcIdRef"; SelectorFieldName := "VpcIdSelector" |})
    ∧ (ShortGroup r ≠ "ec2" →
       References r' !! "vpc_id"
       = Some {| RefType := "github.com/crossplane-contrib/provider-jet-aws/apis/ec2/v1alpha2.VPC";
                 Extractor := "";
                 RefFieldName := "VpcIdRef"; SelectorFieldName := "VpcIdSelector" |}).
Proof.
  intros Hs Hc Hsens. eexists; split; [reflexivity|].
  rewrite (KnownReferencersIn_lookup _ r "vpc_id" ltac:(reflexivity)), Hs. cbn [mbind option_bind].
  rewrite (wired_vpc_id _ _ (not_skipped _ Hc Hsens)).
  split.
  - intros ->. reflexivity.
  - intros Hne. apply String.eqb_neq in Hne. rewrite Hne. reflexivity.
Qed.

(** C7.  A field that is computed and not optional, or sensitive, never
    gets a reference: when the references held no entry for its name
    before the mutator ran they hold none after it, whatever the name. *)
Theorem no_reference_for_status_or_sensitive (r : Resource) (k : string) (s : Schema) :
  schemaOf r !! k = Some s →
  (Computed s = true ∧ Optional s = false) ∨ Sensitive s = true →
  References r !! k = None →
  ∃ r', KnownReferencers r = Ok r' ∧ References r' !! k = None.
Proof.
  intros Hs Hskip Hnone. eexists; split; [reflexivity|].
  rewrite (KnownReferencersIn_lookup _ r k ltac:(reflexivity)), Hs. cbn [mbind option_bind].
  rewrite wired_skipped; [done|].
  unfold skipped. destruct Hskip as [[-> ->]| ->]; [done|]. apply orb_true_r.
Qed.

(** C3 (amended).  A field whose name ends with [security_group_ids] and
    that is neither computed-only nor sensitive is wired to the security
    group type; its reference and selector field names are the PascalCase
    form of the field name with one trailing [s] removed, followed by
    [Refs] and [Selector].  Only the final [s] goes, the word [Id] stays:
    for [db_security_group_ids] the names end with [IdRefs] and
    [IdSelector] and are not [DbSecurityGroupRefs] and
    [DbSecurityGroupSelector].  Of the naming transform this uses only that
    the PascalCase form of [db_security_group_ids] ends with [Ids]. *)
Theorem security_group_ids_reference (r : Resource) (k : string) (s : Schema) :
  schemaOf r !! k = Some s →
  Computed s && negb (Optional s) = false →
  Sensitive s = false →
  gostrings.HasSuffix k "security_group_ids" = true →
  ∃ r' ref, KnownReferencers r = Ok r'
    ∧ References r' !! k = Some ref
    ∧ RefType ref
      = "github.com/crossplane-contrib/provider-jet-aws/apis/ec2/v1alpha2.SecurityGroup"
    ∧ Extractor ref = ""
    ∧ RefFieldName ref
      = gostrings.TrimSuffix (name.Camel (name.NewFromSnake k)) "s" +:+ "Refs"
    ∧ SelectorFieldName ref
      = gostrings.TrimSuffix (name.Camel (name.NewFromSnake k)) "s" +:+ "Selector"
    ∧ (k = "db_security_group_ids" →
       gostrings.HasSuffix (RefFieldName ref) "IdRefs" = true
       ∧ gostrings.HasSuffix (SelectorFieldName ref) "IdSelector" = true
       ∧ RefFieldName ref ≠ "DbSecurityGroupRefs"
       ∧ SelectorFieldName ref ≠ "DbSecurityGroupSelector").
Proof.
  intros Hs Hc Hsens Hsuf. do 2 eexists. split; [reflexivity|].
  rewrite (KnownReferencersIn_lookup _ r k ltac:(reflexivity)), Hs. cbn [mbind option_bind].
  rewrite (wired_security_group_ids _ _ _ (not_skipped _ Hc Hsens) Hsuf).
  split; [reflexivity|]. cbn [RefType Extractor RefFieldName SelectorFieldName refNamed].
  do 4 (split; [reflexivity|]). intros ->.
  apply gostrings_facts.names_keep_Id. reflexivity.
Qed.

(** *** Counting schema entries *)

Lemma filter_key_length {A} (k : string) (l : list (string * A)) :
  NoDup l.*1 →
  length (filter (λ e, e.1 = k) l) = if decide (k ∈ l.*1) then 1%nat else 0%nat.
Proof.
  induction l as [|[k' a] l IH]; intros Hnd; [done|].
  cbn [fmap list_fmap fst] in Hnd. apply NoDup_cons in Hnd as [Hk Hnd].
  rewrite filter_cons. cbn [fst fmap list_fmap].
  destruct (decide (k' = k)) as [->|Hne].
  - cbn [length]. rewrite (IH Hnd).
    rewrite decide_False by done. rewrite decide_True by (left; done). done.
  - rewrite (IH Hnd). destruct (decide (k ∈ l.*1)) as [Hin|Hnin].
    + by rewrite decide_True by (by right).
    + rewrite decide_False; [done|]. by intros [->|?]%elem_of_cons.
Qed.

Lemma fieldCount_lookup k (m : gmap string Schema) :
  fieldCount k m = match m !! k with Some _ => 1%nat | None => 0%nat end.
Proof.
  unfold fieldCount. rewrite filter_key_length by apply NoDup_fst_map_to_list.
  destruct (m !! k) as [s|] eqn:E.
  - rewrite decide_True; [done|].
    apply list_elem_of_fmap. exists (k, s). split; [done|].
    by apply elem_of_map_to_list.
  - rewrite decide_False; [done|].
    intros [[k' s] [Hk Hin]]%list_elem_of_fmap. cbn in Hk; subst k'.
    apply elem_of_map_to_list in Hin. congruence.
Qed.

(** *** Setters *)

Lemma set_Schema_twice m m' r : set_Schema m (set_Schema m' r) = set_Schema m r.
Proof. reflexivity. Qed.

Lemma schemaOf_set_Schema m r : schemaOf (set_Schema m r) = m.
Proof. reflexivity. Qed.

Lemma set_Schema_same r : set_Schema (schemaOf r) r = r.
Proof. by destruct r as [? ? ? ? ? ? []]. Qed.

Lemma computedOnly_twice t : computedOnly (computedOnly t) = computedOnly t.
Proof. reflexivity. Qed.

(** *** Tags *)

(** C8.  When the schema has a field named [tags_all], [TagsAllRemoval]
    keeps the field and makes it computed-only: [Computed] becomes true,
    [Optional] false, and every other attribute of the field stays as it
    was; every other schema field and every other component of the
    descriptor is unchanged.  When the schema has no such field the
    descriptor is returned unchanged. *)
Theorem tags_all_neutralized :
  (∀ (r : Resource) (t : Schema),
     schemaOf r !! "tags_all" = Some t →
     ∃ r' t', TagsAllRemoval r = Ok r'
       ∧ schemaOf r' !! "tags_all" = Some t'
       ∧ Computed t' = true ∧ Optional t' = false
       ∧ t' = {| Type_ := Type_ t; Optional := false; Required := Required t;
                 Description := Description t; Computed := true;
                 ForceNew := ForceNew t; MaxItems := MaxItems t;
                 MinItems := MinItems t; Deprecated := Deprecated t;
                 Sensitive := Sensitive t |}
       ∧ (∀ k, k ≠ "tags_all" → schemaOf r' !! k = schemaOf r !! k)
       ∧ size (schemaOf r') = size (schemaOf r)
       ∧ Name r' = Name r ∧ ShortGroup r' = ShortGroup r ∧ Kind r' = Kind r
       ∧ Version r' = Version r ∧ ExternalName r' = ExternalName r
       ∧ References r' = References r)
  ∧ (∀ r : Resource,
       schemaOf r !! "tags_all" = None → TagsAllRemoval r = Ok r).
Proof.
  split.
  - intros r t Ht. unfold TagsAllRemoval. rewrite Ht.
    exists (set_Schema (<["tags_all" := computedOnly t]> (schemaOf r)) r), (computedOnly t).
    split; [reflexivity|]. rewrite schemaOf_set_Schema.
    split; [apply lookup_insert_eq|]. do 3 (split; [reflexivity|]).
    split; [intros k Hk; by rewrite lookup_insert_ne|].
    split; [by eapply map_size_insert_Some|]. done.
  - intros r Hnone. unfold TagsAllRemoval. by rewrite Hnone.
Qed.

(** What [TagsAllRemoval] leaves alone: the other attributes of [tags_all],
    the other fields and the rest of the descriptor. *)
Lemma TagsAllRemoval_frame r t :
  schemaOf r !! "tags_all" = Some t →
  TagsAllRemoval r = Ok (set_Schema (<["tags_all" := computedOnly t]> (schemaOf r)) r).
Proof. intros Ht. unfold TagsAllRemoval. by rewrite Ht. Qed.

(** *** Region *)

Lemma RegionAddition_iam r : ShortGroup r = "iam" → RegionAddition r = Ok r.
Proof. intros H. open_RegionAddition. by rewrite H. Qed.

Lemma RegionAddition_accepted r comment :
  ShortGroup r ≠ "iam" →
  comments_New regionText [WithTFTag "-"] = inl comment →
  RegionAddition r
  = Ok (set_Schema (<["region" := regionSchema (Comment_String comment)]> (schemaOf r)) r).
Proof.
  intros Hg Hc. open_RegionAddition.
  apply String.eqb_neq in Hg. by rewrite Hg, Hc.
Qed.

Lemma RegionAddition_rejected r err :
  ShortGroup r ≠ "iam" →
  comments_New regionText [WithTFTag "-"] = inr err →
  RegionAddition r = Panic ("cannot build comment for region: " +:+ err).
Proof.
  intros Hg Hc. open_RegionAddition.
  apply String.eqb_neq in Hg. by rewrite Hg, Hc.
Qed.

(** Every way [RegionAddition] can return. *)
Lemma RegionAddition_Ok r r' :
  RegionAddition r = Ok r' →
  (ShortGroup r = "iam" ∧ r' = r)
  ∨ (ShortGroup r ≠ "iam"
     ∧ ∃ comment, comments_New regionText [WithTFTag "-"] = inl comment
         ∧ r' = set_Schema (<["region" := regionSchema (Comment_String comment)]> (schemaOf r)) r).
Proof.
  open_RegionAddition.
  destruct (String.eqb (ShortGroup r) "iam") eqn:Hg.
  - intros [= <-]. left. by apply String.eqb_eq in Hg.
  - apply String.eqb_neq in Hg.
    destruct (comments_New regionText [WithTFTag "-"]) as [comment|err]; [|done].
    intros [= <-]. right. eauto.
Qed.

(** C5.  Outside the [iam] group, and when the comment builder accepts the
    fixed description, [RegionAddition] adds to the schema a field [region]
    of type string, required, described by the comment built from the fixed
    text with the Terraform tag ["-"] (which keeps the field out of the
    Terraform serialization): the schema has exactly one such entry, one
    field more than before when it had no [region], every other field is
    as it was and so is every other component of the descriptor.  In the
    [iam] group the descriptor, and so its schema, is returned as it was. *)
Theorem region_added_unless_iam :
  (∀ (r : Resource) (comment : Comment),
     ShortGroup r ≠ "iam" →
     comments_New regionText [WithTFTag "-"] = inl comment →
     ∃ r' f, RegionAddition r = Ok r'
       ∧ schemaOf r' !! "region" = Some f
       ∧ Type_ f = TypeString ∧ Required f = true
       ∧ Description f = Comment_String comment
       ∧ fieldCount "region" (schemaOf r') = 1%nat
       ∧ f = {| Type_ := TypeString; Optional := false; Required := true;
                Description := Comment_String comment; Computed := false;
                ForceNew := false; MaxItems := 0; MinItems := 0;
                Deprecated := ""; Sensitive := false |}
       ∧ (∀ k, k ≠ "region" → schemaOf r' !! k = schemaOf r !! k)
       ∧ (schemaOf r !! "region" = None →
          size (schemaOf r') = S (size (schemaOf r)))
       ∧ Name r' = Name r ∧ ShortGroup r' = ShortGroup r ∧ Kind r' = Kind r
       ∧ Version r' = Version r ∧ ExternalName r' = ExternalName r
       ∧ References r' = References r)
  ∧ (∀ r : Resource,
       ShortGroup r = "iam" →
       ∃ r', RegionAddition r = Ok r' ∧ r' = r
         ∧ schemaOf r' = schemaOf r
         ∧ fieldCount "region" (schemaOf r') = fieldCount "region" (schemaOf r)).
Proof.
  split.
  - intros r comment Hg Hc. do 2 eexists.
    split; [by apply RegionAddition_accepted|].
    rewrite fieldCount_lookup, !schemaOf_set_Schema, lookup_insert_eq.
    do 6 (split; [reflexivity|]).
    split; [intros k Hk; by rewrite lookup_insert_ne|].
    split; [intros Hnone; by apply map_size_insert_None|]. done.
  - intros r Hg. exists r. by rewrite RegionAddition_iam.
Qed.

(** C4 (amended).  When the schema already has a field [region] (outside
    the [iam] group, the comment builder accepting), [RegionAddition] puts
    the fixed definition in its place: type string, required, the fixed
    description and every other attribute at its zero value, whatever the
    previous definition was.  The field is not duplicated (the schema keeps
    its size and has one entry named [region]) and every other field is
    unchanged. *)
Theorem existing_region_replaced (r : Resource) (old : Schema) (comment : Comment) :
  schemaOf r !! "region" = Some old →
  ShortGroup r ≠ "iam" →
  comments_New regionText [WithTFTag "-"] = inl comment →
  ∃ r', RegionAddition r = Ok r'
    ∧ schemaOf r' !! "region"
      = Some {| Type_ := TypeString; Optional := false; Required := true;
                Description := Comment_String comment; Computed := false;
                ForceNew := false; MaxItems := 0; MinItems := 0;
                Deprecated := ""; Sensitive := false |}
    ∧ fieldCount "region" (schemaOf r') = 1%nat
    ∧ size (schemaOf r') = size (schemaOf r)
    ∧ (∀ k, k ≠ "region" → schemaOf r' !! k = schemaOf r !! k).
Proof.
  intros Hold Hg Hc. eexists. split; [by apply RegionAddition_accepted|].
  rewrite fieldCount_lookup, !schemaOf_set_Schema, lookup_insert_eq.
  split; [done|]. split; [done|].
  split; [by eapply map_size_insert_Some|].
  intros k Hk. by rewrite lookup_insert_ne.
Qed.

(** *** Group and kind overrides *)

Lemma GroupMap_lookup n f :
  GroupMap !! n = Some f →
  (n = "aws_route53_resolver_rule" ∧ f = ReplaceGroupWords "route53resolver" 2)
  ∨ (n = "aws_route53_resolver_rule_association"
     ∧ f = ReplaceGroupWords "route53resolver" 2)
  ∨ (n = "aws_route_table" ∧ f = ReplaceGroupWords "ec2" 0).
Proof.
  unfold GroupMap. cbn [list_to_map foldr uncurry fst snd].
  rewrite !lookup_insert_Some, lookup_empty.
  intros [[<- <-]|[_ [[<- <-]|[_ [[<- <-]|[_ [=]]]]]]]; auto.
Qed.

Lemma ReplaceGroupWords_in_range group count resource :
  (0 ≤ count ≤ Z.of_nat (length (gostrings.Split (gostrings.TrimPrefix resource "aws_") "_"%char)))%Z →
  ReplaceGroupWords group count resource
  = Ok (group, kindFromWords (Z.to_nat count) resource).
Proof.
  intros [H0 H1]. unfold ReplaceGroupWords, slice_from, kindFromWords.
  apply Z.leb_le in H0, H1. by rewrite H0, H1.
Qed.

(** C2.  Every entry of the group-override table is a [ReplaceGroupWords]
    override with a configured group and word count; applied to its own
    resource name it returns the configured group and, as kind, the name
    without the prefix [aws_], split on [_], without the configured number
    of leading words, joined and converted to PascalCase; and
    [GroupKindOverrides] stores that group and kind in the descriptor.  For
    [aws_route53_resolver_rule] (two words dropped) the kind is [Rule], for
    [aws_route_table] (no word dropped) it is [RouteTable]. *)
Theorem group_override_kind :
  (∀ (n : string) (f : GroupKindCalculator),
     GroupMap !! n = Some f →
     ∃ (group : string) (count : nat),
       f = ReplaceGroupWords group (Z.of_nat count)
       ∧ f n = Ok (group, kindFromWords count n)
       ∧ ∀ r, Name r = n →
           GroupKindOverrides r = Ok (set_GroupKind group (kindFromWords count n) r))
  ∧ (∃ f, GroupMap !! "aws_route53_resolver_rule" = Some f
        ∧ f = ReplaceGroupWords "route53resolver" 2
        ∧ f "aws_route53_resolver_rule" = Ok ("route53resolver", "Rule"))
  ∧ (∃ f, GroupMap !! "aws_route_table" = Some f
        ∧ f = ReplaceGroupWords "ec2" 0
        ∧ f "aws_route_table" = Ok ("ec2", "RouteTable")).
Proof.
  split; [|split].
  - intros n f Hf.
    assert (∃ (group : string) (count : nat),
              f = ReplaceGroupWords group (Z.of_nat count)
              ∧ f n = Ok (group, kindFromWords count n)) as (group & count & Hdef & Hrun).
    { destruct (GroupMap_lookup n f Hf) as [[-> ->]|[[-> ->]|[-> ->]]].
      - exists "route53resolver", 2%nat. by split.
      - exists "route53resolver", 2%nat. by split.
      - exists "ec2", 0%nat. by split. }
    exists group, count. do 2 (split; [done|]).
    intros r Hn. unfold GroupKindOverrides. rewrite Hn, Hf, Hrun. reflexivity.
  - eexists. split; [reflexivity|]. by split.
  - eexists. split; [reflexivity|]. by split.
Qed.

(** *** Name prefix *)

Lemma occurrences_cons x f l :
  occurrences x (f :: l)
  = ((if decide (f = x) then 1 else 0) + occurrences x l)%nat.
Proof.
  unfold occurrences. rewrite filter_cons. by destruct (decide (f = x)).
Qed.

Lemma occurrences_app x l1 l2 :
  occurrences x (l1 ++ l2) = (occurrences x l1 + occurrences x l2)%nat.
Proof. unfold occurrences. by rewrite filter_app, length_app. Qed.

Lemma hasNamePrefix_false l :
  hasNamePrefix l = false → occurrences "name_prefix" l = 0%nat.
Proof.
  induction l as [|f l IH]; [done|]. cbn [hasNamePrefix].
  destruct (String.eqb f "name_prefix") eqn:E; [done|].
  intros H. apply String.eqb_neq in E.
  rewrite occurrences_cons, decide_False by done. by rewrite IH.
Qed.

Lemma hasNamePrefix_true l :
  hasNamePrefix l = true → (1 ≤ occurrences "name_prefix" l)%nat.
Proof.
  induction l as [|f l IH]; [done|]. cbn [hasNamePrefix].
  rewrite occurrences_cons.
  destruct (String.eqb f "name_prefix") eqn:E.
  - apply String.eqb_eq in E. rewrite decide_True by done. lia.
  - intros H. specialize (IH H). lia.
Qed.

Lemma hasNamePrefix_app l : hasNamePrefix (l ++ ["name_prefix"]) = true.
Proof.
  induction l as [|f l IH]; [done|]. cbn [app hasNamePrefix].
  by destruct (String.eqb f "name_prefix").
Qed.

Lemma occurrences_absent x l : x ∉ l → occurrences x l = 0%nat.
Proof.
  induction l as [|f l IH]; [done|]. intros [Hne Hl]%not_elem_of_cons.
  rewrite occurrences_cons, decide_False by done. by rewrite IH.
Qed.

Lemma occurrences_NoDup x l : NoDup l → (occurrences x l ≤ 1)%nat.
Proof.
  induction 1 as [|f l Hf Hnd IH]; [cbn; lia|].
  rewrite occurrences_cons. destruct (decide (f = x)) as [->|]; [|lia].
  rewrite (occurrences_absent _ _ Hf). lia.
Qed.

(** After [NamePrefixRemoval] the list holds ["name_prefix"] at least once,
    and exactly as often as before when it already did. *)
Lemma NamePrefixRemoval_occurrences d d1 :
  NamePrefixRemoval d = Ok d1 →
  hasNamePrefix (OmittedFields (ExternalName d1)) = true
  ∧ occurrences "name_prefix" (OmittedFields (ExternalName d1))
    = Nat.max 1 (occurrences "name_prefix" (OmittedFields (ExternalName d))).
Proof.
  unfold NamePrefixRemoval.
  destruct (hasNamePrefix (OmittedFields (ExternalName d))) eqn:E; intros [= <-].
  - split; [done|]. apply hasNamePrefix_true in E. lia.
  - cbn [set_ExternalName ExternalName OmittedFields].
    split; [apply hasNamePrefix_app|].
    rewrite occurrences_app, (hasNamePrefix_false _ E). reflexivity.
Qed.

(** *** Idempotence, one mutator at a time *)

Lemma GroupKindOverrides_idempotent : idempotent GroupKindOverrides.
Proof.
  intros d d1. unfold GroupKindOverrides.
  destruct (GroupMap !! Name d) as [f|] eqn:Hf.
  - destruct (f (Name d)) as [[g k]|] eqn:Hrun; [|done].
    intros [= <-]. cbn [set_GroupKind Name]. by rewrite Hf, Hrun.
  - intros [= <-]. by rewrite Hf.
Qed.

Lemma KindOverrides_idempotent : idempotent KindOverrides.
Proof.
  intros d d1. unfold KindOverrides.
  destruct (KindMap !! Name d) as [k|] eqn:Hk; intros [= <-].
  - cbn [set_Kind set_GroupKind Name]. by rewrite Hk.
  - by rewrite Hk.
Qed.

Lemma RegionAddition_idempotent : idempotent RegionAddition.
Proof.
  intros d d1 [[Hg ->]|[Hg (comment & Hc & ->)]]%RegionAddition_Ok.
  - by apply RegionAddition_iam.
  - rewrite (RegionAddition_accepted _ comment) by done.
    by rewrite schemaOf_set_Schema, set_Schema_twice, insert_insert_eq.
Qed.

Lemma TagsAllRemoval_idempotent : idempotent TagsAllRemoval.
Proof.
  intros d d1. unfold TagsAllRemoval.
  destruct (schemaOf d !! "tags_all") as [t|] eqn:Ht; intros [= <-].
  - rewrite schemaOf_set_Schema, lookup_insert_eq.
    by rewrite set_Schema_twice, insert_insert_eq.
  - by rewrite Ht.
Qed.

Lemma IdentifierAssignedByAWS_idempotent : idempotent IdentifierAssignedByAWS.
Proof. by intros d d1 [= <-]. Qed.

Lemma NamePrefixRemoval_idempotent : idempotent NamePrefixRemoval.
Proof.
  intros d d1 H. destruct (NamePrefixRemoval_occurrences d d1 H) as [Hhas _].
  unfold NamePrefixRemoval. by rewrite Hhas.
Qed.

Lemma set_References_same r : set_References (References r) r = r.
Proof. by destruct r. Qed.

Lemma KnownReferencers_idempotent : idempotent KnownReferencers.
Proof.
  intros d d1 H.
  pose proof (λ j, KnownReferencers_lookup d d1 j H) as Hfirst.
  destruct (KnownReferencers_frame d d1 H) as (_ & Hg & _ & _ & _ & Htr).
  assert (schemaOf d1 = schemaOf d) as Hs by (unfold schemaOf; by rewrite Htr).
  pose proof (λ j, KnownReferencersIn_lookup (map_to_list (schemaOf d1)) d1 j
                     ltac:(done)) as Hsecond.
  open_KnownReferencers_in Hsecond. open_KnownReferencers.
  assert (foldl (referencerStep (ShortGroup d1)) (References d1)
            (map_to_list (schemaOf d1)) = References d1) as ->.
  { apply map_eq; intros j. rewrite Hsecond, Hfirst, Hs, Hg.
    by destruct (schemaOf d !! j ≫= wired (ShortGroup d) j). }
  by rewrite set_References_same.
Qed.

(** C1.  Each of the seven mutators of the chain is idempotent: applied to
    the descriptor it returned, it returns that descriptor again.  In
    particular two applications of [RegionAddition] to a descriptor it
    injects into (one outside the [iam] group) leave one field [region],
    the one the first application left, required and with the same
    description; and two applications of [NamePrefixRemoval] leave
    ["name_prefix"] in the omitted fields exactly once, the omitted fields
    being a set (the name listed at most once to begin with). *)
Theorem mutators_idempotent :
  (∀ f, f ∈ defaultOptions → idempotent f)
  ∧ (∀ d d1 d2,
       ShortGroup d ≠ "iam" →
       RegionAddition d = Ok d1 → RegionAddition d1 = Ok d2 →
       fieldCount "region" (schemaOf d2) = 1%nat
       ∧ ∃ f, schemaOf d1 !! "region" = Some f
           ∧ schemaOf d2 !! "region" = Some f
           ∧ Required f = true)
  ∧ (∀ d d1 d2,
       NamePrefixRemoval d = Ok d1 → NamePrefixRemoval d1 = Ok d2 →
       occurrences "name_prefix" (OmittedFields (ExternalName d2))
       = occurrences "name_prefix" (OmittedFields (ExternalName d1))
       ∧ ((occurrences "name_prefix" (OmittedFields (ExternalName d)) ≤ 1)%nat →
          occurrences "name_prefix" (OmittedFields (ExternalName d2)) = 1%nat)).
Proof.
  split; [|split].
  - intros f Hf. repeat (apply elem_of_cons in Hf as [->|Hf]).
    + apply GroupKindOverrides_idempotent.
    + apply KindOverrides_idempotent.
    + apply RegionAddition_idempotent.
    + apply TagsAllRemoval_idempotent.
    + apply IdentifierAssignedByAWS_idempotent.
    + apply NamePrefixRemoval_idempotent.
    + apply KnownReferencers_idempotent.
    + by apply elem_of_nil in Hf.
  - intros d d1 d2 Hg H1 H2.
    rewrite (RegionAddition_idempotent d d1 H1) in H2. injection H2 as <-.
    apply RegionAddition_Ok in H1 as [[Hiam _]|[_ (comment & _ & ->)]]; [done|].
    rewrite fieldCount_lookup, schemaOf_set_Schema, lookup_insert_eq.
    split; [done|]. by eexists.
  - intros d d1 d2 H1 H2.
    rewrite (NamePrefixRemoval_idempotent d d1 H1) in H2. injection H2 as <-.
    split; [done|]. intros Hle.
    destruct (NamePrefixRemoval_occurrences d d1 H1) as [_ ->]. lia.
Qed.

(** *** Totality *)

Lemma GroupKindOverrides_total : total GroupKindOverrides.
Proof.
  intros d. unfold GroupKindOverrides.
  destruct (GroupMap !! Name d) as [f|] eqn:Hf; [|by eexists].
  destruct (GroupMap_lookup _ _ Hf) as [[-> ->]|[[-> ->]|[-> ->]]]; by eexists.
Qed.

Lemma KindOverrides_total : total KindOverrides.
Proof.
  intros d. unfold KindOverrides. destruct (KindMap !! Name d); by eexists.
Qed.

Lemma TagsAllRemoval_total : total TagsAllRemoval.
Proof.
  intros d. unfold TagsAllRemoval. destruct (schemaOf d !! "tags_all"); by eexists.
Qed.

Lemma IdentifierAssignedByAWS_total : total IdentifierAssignedByAWS.
Proof. intros d. by eexists. Qed.

Lemma NamePrefixRemoval_total : total NamePrefixRemoval.
Proof.
  intros d. unfold NamePrefixRemoval.
  destruct (hasNamePrefix (OmittedFields (ExternalName d))); by eexists.
Qed.

Lemma KnownReferencers_total : total KnownReferencers.
Proof. intros d. by eexists. Qed.

Lemma RegionAddition_total comment :
  comments_New regionText [WithTFTag "-"] = inl comment → total RegionAddition.
Proof.
  intros Hc d. destruct (decide (ShortGroup d = "iam")) as [Hg|Hg].
  - exists d. by apply RegionAddition_iam.
  - eexists. by apply RegionAddition_accepted.
Qed.

(** C9.  When [RegionAddition] asks the comment builder for the comment of
    the fixed description (that is, for a descriptor outside the [iam]
    group) and the builder returns an error, the mutator panics with that
    error wrapped; it never returns a descriptor with a [region] field
    other than the annotated one.  The other six mutators return a
    descriptor for every descriptor, a name missing from an override table
    leaves the descriptor as it was, and the naming transform has a result
    (the empty string for the empty string) for every string, so that
    [ReplaceGroupWords] returns whenever its word count is within the
    words of the name. *)
Theorem region_comment_failure_panics :
  (∀ (r : Resource) (err : string),
     ShortGroup r ≠ "iam" →
     comments_New regionText [WithTFTag "-"] = inr err →
     RegionAddition r = Panic ("cannot build comment for region: " +:+ err))
  ∧ (∀ r r' : Resource,
       RegionAddition r = Ok r' →
       r' = r
       ∨ ∃ comment, comments_New regionText [WithTFTag "-"] = inl comment
           ∧ schemaOf r' !! "region" = Some (regionSchema (Comment_String comment)))
  ∧ (total GroupKindOverrides ∧ total KindOverrides ∧ total TagsAllRemoval
     ∧ total IdentifierAssignedByAWS ∧ total NamePrefixRemoval
     ∧ total KnownReferencers)
  ∧ (∀ r : Resource, GroupMap !! Name r = None → GroupKindOverrides r = Ok r)
  ∧ (∀ r : Resource, KindMap !! Name r = None → KindOverrides r = Ok r)
  ∧ name.Camel (name.NewFromSnake "") = ""
  ∧ (∀ (group : string) (count : nat) (resource : string),
       (count ≤ length (gostrings.Split (gostrings.TrimPrefix resource "aws_") "_"%char))%nat →
       ∃ kind, ReplaceGroupWords group (Z.of_nat count) resource = Ok (group, kind)).
Proof.
  split; [exact RegionAddition_rejected|].
  split.
  { intros r r' [[_ ->]|[_ (comment & Hc & ->)]]%RegionAddition_Ok; [by left|].
    right. exists comment. split; [done|].
    by rewrite schemaOf_set_Schema, lookup_insert_eq. }
  split.
  { repeat split; auto using GroupKindOverrides_total, KindOverrides_total,
      TagsAllRemoval_total, IdentifierAssignedByAWS_total,
      NamePrefixRemoval_total, KnownReferencers_total. }
  split. { intros r H. unfold GroupKindOverrides. by rewrite H. }
  split. { intros r H. unfold KindOverrides. by rewrite H. }
  split; [reflexivity|].
  intros group count resource Hle. eexists.
  apply ReplaceGroupWords_in_range. lia.
Qed.

(** *** The default chain *)

Lemma bind_Ok {A B} (x : result A) (k : A → result B) b :
  x ≫= k = Ok b → ∃ a, x = Ok a ∧ k a = Ok b.
Proof. destruct x as [a|]; [|done]. intros H. by exists a. Qed.

Lemma GroupKindOverrides_ExternalName d d1 :
  GroupKindOverrides d = Ok d1 → ExternalName d1 = ExternalName d.
Proof.
  unfold GroupKindOverrides. destruct (GroupMap !! Name d) as [f|].
  - destruct (f (Name d)) as [[g k]|]; [|done]. by intros [= <-].
  - by intros [= <-].
Qed.

(** C10.  In the default chain [IdentifierAssignedByAWS] comes fifth and
    [NamePrefixRemoval] sixth, directly after it, and only
    [KnownReferencers], which leaves the external name alone, follows.  So,
    the omitted fields of the library's [IdentifierFromProvider] being a
    set, every descriptor [defaultResourceFn] returns has ["name_prefix"]
    exactly once among the omitted fields of its external name; and the
    chain does return a descriptor whenever the comment builder accepts the
    region description. *)
Theorem name_prefix_omitted_once :
  (defaultOptions !! 4%nat = Some IdentifierAssignedByAWS
   ∧ defaultOptions !! 5%nat = Some NamePrefixRemoval
   ∧ length defaultOptions = 7%nat)
  ∧ (∀ (n : string) (tr : TFResource) (r : Resource),
       NoDup (OmittedFields IdentifierFromProvider) →
       defaultResourceFn n tr = Ok r →
       occurrences "name_prefix" (OmittedFields (ExternalName r)) = 1%nat)
  ∧ (∀ (n : string) (tr : TFResource) (comment : Comment),
       comments_New regionText [WithTFTag "-"] = inl comment →
       ∃ r, defaultResourceFn n tr = Ok r).
Proof.
  split; [done|]. split.
  - intros n tr r Hset Hrun.
    open_chain_in Hrun.
    apply bind_Ok in Hrun as (r1 & _ & Hrun).
    apply bind_Ok in Hrun as (r2 & _ & Hrun).
    apply bind_Ok in Hrun as (r3 & _ & Hrun).
    apply bind_Ok in Hrun as (r4 & _ & Hrun).
    apply bind_Ok in Hrun as (r5 & H5 & Hrun).
    apply bind_Ok in Hrun as (r6 & H6 & Hrun).
    apply bind_Ok in Hrun as (r7 & H7 & Hrun).
    injection Hrun as <-. injection H5 as <-.
    destruct (KnownReferencers_frame _ _ H7) as (_ & _ & _ & _ & -> & _).
    destruct (NamePrefixRemoval_occurrences _ _ H6) as [_ ->].
    cbn [set_ExternalName ExternalName].
    pose proof (occurrences_NoDup "name_prefix" _ Hset). lia.
  - intros n tr comment Hc.
    open_chain.
    destruct (GroupKindOverrides_total (initialResource n tr)) as [r1 ->].
    cbn [mbind result_bind].
    destruct (KindOverrides_total r1) as [r2 ->]. cbn [mbind result_bind].
    destruct (RegionAddition_total comment Hc r2) as [r3 ->]. cbn [mbind result_bind].
    destruct (TagsAllRemoval_total r3) as [r4 ->]. cbn [mbind result_bind].
    destruct (NamePrefixRemoval_total (set_ExternalName IdentifierFromProvider r4))
      as [r6 H6].
    exists (KnownReferencersIn (map_to_list (schemaOf r6)) r6).
    change (IdentifierAssignedByAWS r4)
      with (Ok (set_ExternalName IdentifierFromProvider r4)).
    cbn [mbind result_bind]. rewrite H6. reflexivity.
Qed.

(** *** More on the reference wiring *)

Lemma suffix_role_arn_not_exact k :
  gostrings.HasSuffix k "role_arn" = true → k ∉ exactNames.
Proof.
  intros H [->|[->|[->|[->|[->|[->| ->]]]]]]%exactNames_spec;
    vm_compute in H; discriminate.
Qed.

Lemma suffix_security_group_ids_not_exact k :
  gostrings.HasSuffix k "security_group_ids" = true → k ∉ exactNames.
Proof.
  intros H [->|[->|[->|[->|[->|[->| ->]]]]]]%exactNames_spec;
    vm_compute in H; discriminate.
Qed.

Lemma wired_role_arn group k s :
  skipped s = false →
  gostrings.HasSuffix k "role_arn" = true →
  wired group k s
  = Some {| RefType := iamRole; Extractor := PathARNExtractor;
            RefFieldName := ""; SelectorFieldName := "" |}.
Proof.
  intros Hs Hsuf.
  destruct (not_exact_eqb k (suffix_role_arn_not_exact k Hsuf))
    as (E1 & E2 & E3 & E4 & E5 & E6 & E7).
  unfold skipped in Hs. open_referencerStep.
  rewrite Hs, Hsuf, E1, E2, E3, E4, E5, E6, E7. apply lookup_insert_eq.
Qed.

Lemma wired_no_rule group k s :
  gostrings.HasSuffix k "role_arn" = false →
  gostrings.HasSuffix k "security_group_ids" = false →
  k ∉ exactNames →
  wired group k s = None.
Proof.
  intros H1 H2 (E1 & E2 & E3 & E4 & E5 & E6 & E7)%not_exact_eqb.
  open_referencerStep.
  rewrite H1, H2, E1, E2, E3, E4, E5, E6, E7.
  destruct (Computed s && negb (Optional s) || Sensitive s); apply lookup_empty.
Qed.

Lemma wired_subnet_ids group s :
  skipped s = false →
  wired group "subnet_ids" s
  = Some (refNamed (if String.eqb group "ec2" then "Subnet" else ec2Subnet)
            "SubnetIdRefs" "SubnetIdSelector").
Proof.
  unfold skipped; open_referencerStep. intros ->.
  vm_compute (gostrings.HasSuffix _ _). cbn [String.eqb Ascii.eqb Bool.eqb].
  destruct (String.eqb group "ec2");
    by rewrite ?insert_insert_eq, lookup_insert_eq.
Qed.

(** The exact-name rules without a same-group case. *)
Lemma wired_plain group k s :
  skipped s = false →
  (k = "subnet_id" → wired group k s = Some (refTo ec2Subnet))
  ∧ (k = "security_group_id" → wired group k s = Some (refTo ec2SecurityGroup))
  ∧ (k = "kms_key_id" ∨ k = "kms_key_arn" ∨ k = "kms_key" →
     wired group k s = Some (refTo kmsKey)).
Proof.
  unfold skipped; open_referencerStep. intros ->.
  split; [|split].
  - intros ->. reflexivity.
  - intros ->. reflexivity.
  - intros [->|[->| ->]]; reflexivity.
Qed.

(** X1.  The references [KnownReferencers] leaves do not depend on the order
    in which the loop visits the schema map: two enumerations of the same
    schema give the same descriptor. *)
Theorem referencers_any_order (r : Resource) (l1 l2 : list (string * Schema)) :
  l1 ≡ₚ map_to_list (schemaOf r) →
  l2 ≡ₚ map_to_list (schemaOf r) →
  KnownReferencersIn l1 r = KnownReferencersIn l2 r
  ∧ KnownReferencers r = Ok (KnownReferencersIn l1 r).
Proof.
  intros H1 H2.
  pose proof (KnownReferencersIn_order l1 r H1) as E1.
  pose proof (KnownReferencersIn_order l2 r H2) as E2.
  split; [congruence | done].
Qed.

(** X2.  [KnownReferencers] only adds or replaces references, and only under
    names of schema fields: an entry present before is present after, a
    name that is no schema field keeps its entry as it was, so does a name
    that matches no rule, and nothing but [References] changes in the
    descriptor. *)
Theorem referencers_keep_entries (r r' : Resource) :
  KnownReferencers r = Ok r' →
  (∀ k, is_Some (References r !! k) → is_Some (References r' !! k))
  ∧ (∀ k, schemaOf r !! k = None → References r' !! k = References r !! k)
  ∧ (∀ k, gostrings.HasSuffix k "role_arn" = false →
          gostrings.HasSuffix k "security_group_ids" = false →
          k ∉ exactNames →
          References r' !! k = References r !! k)
  ∧ Name r' = Name r ∧ ShortGroup r' = ShortGroup r ∧ Kind r' = Kind r
  ∧ Version r' = Version r ∧ ExternalName r' = ExternalName r
  ∧ TerraformResource r' = TerraformResource r.
Proof.
  intros H. pose proof (λ k, KnownReferencers_lookup r r' k H) as Hl.
  split; [|split; [|split]].
  - intros k Hk. rewrite Hl.
    destruct (schemaOf r !! k ≫= wired (ShortGroup r) k); [by eexists | done].
  - intros k Hk. by rewrite Hl, Hk.
  - intros k H1 H2 H3. rewrite Hl.
    destruct (schemaOf r !! k) as [s|]; [|done]. cbn.
    by rewrite wired_no_rule.
  - by apply KnownReferencers_frame.
Qed.

(** X3.  No field name matches two rules of [KnownReferencers]: a name that
    ends with [role_arn] does not end with [security_group_ids], and a name
    that ends with either is none of the seven exact names, so the second
    switch never overwrites what the first one stored. *)
Theorem referencer_rules_exclusive (k : string) :
  (gostrings.HasSuffix k "role_arn" = true →
   gostrings.HasSuffix k "security_group_ids" = false ∧ k ∉ exactNames)
  ∧ (gostrings.HasSuffix k "security_group_ids" = true →
     gostrings.HasSuffix k "role_arn" = false ∧ k ∉ exactNames).
Proof.
  split; intros H.
  - split; [|by apply suffix_role_arn_not_exact].
    destruct (gostrings.HasSuffix k "security_group_ids") eqn:E; [|done].
    by rewrite (gostrings_facts.suffix_security_group_ids_not_role_arn k E) in H.
  - split; [|by apply suffix_security_group_ids_not_exact].
    by apply gostrings_facts.suffix_security_group_ids_not_role_arn.
Qed.

(** X4.  A field whose name ends with [role_arn] and that is neither
    computed-only nor sensitive is wired to the IAM role type with the ARN
    extractor and no explicit reference or selector field name, in every
    group, replacing whatever reference the name had. *)
Theorem role_arn_reference (r : Resource) (k : string) (s : Schema) :
  schemaOf r !! k = Some s →
  Computed s && negb (Optional s) = false →
  Sensitive s = false →
  gostrings.HasSuffix k "role_arn" = true →
  ∃ r', KnownReferencers r = Ok r'
    ∧ References r' !! k
      = Some {| RefType := "github.com/crossplane-contrib/provider-jet-aws/apis/iam/v1alpha2.Role";
                Extractor := PathARNExtractor;
                RefFieldName := ""; SelectorFieldName := "" |}.
Proof.
  intros Hs Hc Hsens Hsuf. eexists; split; [reflexivity|].
  rewrite (KnownReferencersIn_lookup _ r k ltac:(reflexivity)), Hs. cbn [mbind option_bind].
  by rewrite (wired_role_arn _ _ _ (not_skipped _ Hc Hsens) Hsuf).
Qed.

(** X5.  A field named exactly [subnet_ids] that is neither computed-only
    nor sensitive is wired to the subnet type, by its short name [Subnet]
    in group [ec2] and by the fully qualified path in any other group, with
    the field names [SubnetIdRefs] and [SubnetIdSelector]. *)
Theorem subnet_ids_reference_by_group (r : Resource) (s : Schema) :
  schemaOf r !! "subnet_ids" = Some s →
  Computed s && negb (Optional s) = false →
  Sensitive s = false →
  ∃ r', KnownReferencers r = Ok r'
    ∧ (ShortGroup r = "ec2" →
       References r' !! "subnet_ids"
       = Some {| RefType := "Subnet"; Extractor := "";
                 RefFieldName := "SubnetIdRefs";
                 SelectorFieldName := "SubnetIdSelector" |})
    ∧ (ShortGroup r ≠ "ec2" →
       References r' !! "subnet_ids"
       = Some {| RefType := "github.com/crossplane-contrib/provider-jet-aws/apis/ec2/v1alpha2.Subnet";
                 Extractor := "";
                 RefFieldName := "SubnetIdRefs";
                 SelectorFieldName := "SubnetIdSelector" |}).
Proof.
  intros Hs Hc Hsens. eexists; split; [reflexivity|].
  rewrite (KnownReferencersIn_lookup _ r "subnet_ids" ltac:(reflexivity)), Hs.
  cbn [mbind option_bind].
  rewrite (wired_subnet_ids _ _ (not_skipped _ Hc Hsens)).
  split.
  - intros ->. reflexivity.
  - intros Hne. apply String.eqb_neq in Hne. rewrite Hne. reflexivity.
Qed.

(** X6.  The same-group short name is used for [vpc_id] and [subnet_ids]
    only: a field named [subnet_id] or [security_group_id] is wired to the
    fully qualified [ec2] type whatever the descriptor's group, [ec2]
    included, and [kms_key_id], [kms_key_arn] and [kms_key] to the fully
    qualified KMS key type; none of them gets explicit field names. *)
Theorem plain_exact_name_references (r : Resource) (k : string) (s : Schema) :
  schemaOf r !! k = Some s →
  Computed s && negb (Optional s) = false →
  Sensitive s = false →
  ∃ r', KnownReferencers r = Ok r'
    ∧ (k = "subnet_id" →
       References r' !! k
       = Some (refTo "github.com/crossplane-contrib/provider-jet-aws/apis/ec2/v1alpha2.Subnet"))
    ∧ (k = "security_group_id" →
       References r' !! k
       = Some (refTo "github.com/crossplane-contrib/provider-jet-aws/apis/ec2/v1alpha2.SecurityGroup"))
    ∧ (k = "kms_key_id" ∨ k = "kms_key_arn" ∨ k = "kms_key" →
       References r' !! k
       = Some (refTo "github.com/crossplane-contrib/provider-jet-aws/apis/kms/v1alpha2.Key")).
Proof.
  intros Hs Hc Hsens. eexists; split; [reflexivity|].
  rewrite (KnownReferencersIn_lookup _ r k ltac:(reflexivity)), Hs. cbn [mbind option_bind].
  destruct (wired_plain (ShortGroup r) k s (not_skipped _ Hc Hsens)) as (H1 & H2 & H3).
  split; [|split]; intros Hk.
  - by rewrite (H1 Hk).
  - by rewrite (H2 Hk).
  - by rewrite (H3 Hk).
Qed.

(** *** More on the overrides *)

Lemma GroupMap_KindMap_disjoint n :
  is_Some (GroupMap !! n) → KindMap !! n = None.
Proof.
  intros [f Hf].
  destruct (GroupMap_lookup n f Hf) as [[-> _]|[[-> _]|[-> _]]]; reflexivity.
Qed.

Lemma set_GroupKind_same r : set_GroupKind (ShortGroup r) (Kind r) r = r.
Proof. by destruct r. Qed.

Lemma set_ExternalName_same r : set_ExternalName (ExternalName r) r = r.
Proof. by destruct r. Qed.

(** Every way [GroupKindOverrides] can return. *)
Lemma GroupKindOverrides_Ok r r' :
  GroupKindOverrides r = Ok r' →
  (GroupMap !! Name r = None ∧ r' = r)
  ∨ ∃ f g k, GroupMap !! Name r = Some f ∧ f (Name r) = Ok (g, k)
             ∧ r' = set_GroupKind g k r.
Proof.
  unfold GroupKindOverrides. destruct (GroupMap !! Name r) as [f|].
  - destruct (f (Name r)) as [[g k]|] eqn:E; [|done]. intros [= <-].
    right. by exists f, g, k.
  - intros [= <-]. by left.
Qed.

(** X7.  The two override tables share no resource name, so for every
    descriptor the group/kind override and the kind override commute: run
    in either order they return the same descriptor. *)
Theorem overrides_commute :
  (∀ n, is_Some (GroupMap !! n) → KindMap !! n = None)
  ∧ (∀ r, GroupKindOverrides r ≫= KindOverrides
          = KindOverrides r ≫= GroupKindOverrides).
Proof.
  split; [exact GroupMap_KindMap_disjoint|]. intros r.
  unfold GroupKindOverrides at 1, KindOverrides at 2.
  destruct (GroupMap !! Name r) as [f|] eqn:Hf.
  - rewrite (GroupMap_KindMap_disjoint (Name r)) by eauto. cbn [mbind mret result_bind result_ret].
    unfold GroupKindOverrides. rewrite Hf.
    destruct (f (Name r)) as [[g k]|]; [|done]. cbn.
    unfold KindOverrides. cbn [set_GroupKind Name].
    by rewrite (GroupMap_KindMap_disjoint (Name r)) by eauto.
  - cbn [mbind mret result_bind result_ret].
    unfold KindOverrides. destruct (KindMap !! Name r) as [k|]; cbn.
    + unfold GroupKindOverrides. cbn [set_Kind set_GroupKind Name]. by rewrite Hf.
    + unfold GroupKindOverrides. by rewrite Hf.
Qed.

(** X8.  [ReplaceGroupWords] cuts the name (without [aws_]) into one word
    more than it has underscores and returns exactly when the count lies
    between zero and that number of words; a count below zero or above it
    panics with a slice-bounds error, and a count equal to the number of
    words is accepted and gives the empty kind. *)
Theorem ReplaceGroupWords_bounds (group : string) (count : Z) (resource : string) :
  length (gostrings.Split (gostrings.TrimPrefix resource "aws_") "_"%char)
  = S (countByte "_"%char (gostrings.TrimPrefix resource "aws_"))
  ∧ ((0 ≤ count ≤ Z.of_nat (S (countByte "_"%char (gostrings.TrimPrefix resource "aws_"))))%Z →
     ∃ kind, ReplaceGroupWords group count resource = Ok (group, kind))
  ∧ ((count < 0 ∨ Z.of_nat (S (countByte "_"%char (gostrings.TrimPrefix resource "aws_"))) < count)%Z →
     ReplaceGroupWords group count resource
     = Panic "runtime error: slice bounds out of range")
  ∧ (count = Z.of_nat (S (countByte "_"%char (gostrings.TrimPrefix resource "aws_"))) →
     ReplaceGroupWords group count resource = Ok (group, "")).
Proof.
  pose proof (gostrings_facts.Split_length (gostrings.TrimPrefix resource "aws_") "_"%char) as Hlen.
  split; [done|]. split; [|split].
  - intros H. eexists. apply ReplaceGroupWords_in_range. rewrite Hlen. lia.
  - intros H. unfold ReplaceGroupWords, slice_from. rewrite Hlen.
    destruct H as [H|H].
    + apply Z.leb_gt in H. by rewrite H.
    + apply Z.leb_gt in H. rewrite H. by rewrite andb_false_r.
  - intros ->. rewrite ReplaceGroupWords_in_range by (rewrite Hlen; lia).
    unfold kindFromWords. rewrite Nat2Z.id, <- Hlen, drop_all. reflexivity.
Qed.

(** X9.  With no word dropped the words are joined back into the name they
    were cut from: the kind is the PascalCase form of the resource name
    without its prefix [aws_], and of the whole name when it does not start
    with [aws_]. *)
Theorem ReplaceGroupWords_keeps_all_words (group resource : string) :
  ReplaceGroupWords group 0 resource
  = Ok (group, name.Camel (name.NewFromSnake (gostrings.TrimPrefix resource "aws_")))
  ∧ (gostrings.HasPrefix resource "aws_" = false →
     ReplaceGroupWords group 0 resource
     = Ok (group, name.Camel (name.NewFromSnake resource))).
Proof.
  assert (ReplaceGroupWords group 0 resource
          = Ok (group, name.Camel (name.NewFromSnake (gostrings.TrimPrefix resource "aws_")))) as H.
  { rewrite (ReplaceGroupWords_in_range group 0 resource) by lia.
    unfold kindFromWords. cbv zeta. change (Z.to_nat 0) with 0%nat.
    by rewrite drop_0, (gostrings_facts.Join_Split _ "_"%char). }
  split; [exact H|]. intros Hp. rewrite H. unfold gostrings.TrimPrefix. by rewrite Hp.
Qed.

(** *** More on the name prefix *)

(** X10.  [NamePrefixRemoval] only ever appends: a descriptor whose omitted
    fields name [name_prefix] anywhere is returned as it is, otherwise
    [name_prefix] is added after the fields already omitted, which keep
    their order; the rest of the external name and of the descriptor is
    not touched. *)
Theorem name_prefix_appended_last (r : Resource) :
  ∃ r', NamePrefixRemoval r = Ok r'
    ∧ ("name_prefix" ∈ OmittedFields (ExternalName r) → r' = r)
    ∧ ("name_prefix" ∉ OmittedFields (ExternalName r) →
       OmittedFields (ExternalName r')
       = (OmittedFields (ExternalName r) ++ ["name_prefix"])%list)
    ∧ (OmittedFields (ExternalName r)) `prefix_of` (OmittedFields (ExternalName r'))
    ∧ "name_prefix" ∈ OmittedFields (ExternalName r')
    ∧ Fns (ExternalName r') = Fns (ExternalName r)
    ∧ DisableNameInitializer (ExternalName r')
      = DisableNameInitializer (ExternalName r)
    ∧ set_ExternalName (ExternalName r) r' = r.
Proof.
  unfold NamePrefixRemoval.
  destruct (hasNamePrefix (OmittedFields (ExternalName r))) eqn:E.
  - apply hasNamePrefix_elem in E. exists r.
    repeat split; try done. by apply set_ExternalName_same.
  - assert ("name_prefix" ∉ OmittedFields (ExternalName r)) as Hnot.
    { intros H%hasNamePrefix_elem. congruence. }
    eexists. split; [reflexivity|]. cbn [set_ExternalName ExternalName OmittedFields Fns DisableNameInitializer].
    split; [done|]. split; [done|].
    split; [by apply prefix_app_r|].
    split; [apply elem_of_app; right; by left|].
    split; [done|]. split; [done|]. by destruct r.
Qed.

(** *** The default chain as a whole *)

Lemma KindOverrides_Ok r r' :
  KindOverrides r = Ok r' →
  r' = set_Kind (default (Kind r) (KindMap !! Name r)) r.
Proof.
  unfold KindOverrides. destruct (KindMap !! Name r); intros [= <-]; [done|].
  cbn. unfold set_Kind. by rewrite set_GroupKind_same.
Qed.

Lemma TagsAllRemoval_Ok r r' :
  TagsAllRemoval r = Ok r' → r' = set_Schema (neutralizeTagsAll (schemaOf r)) r.
Proof.
  unfold TagsAllRemoval, neutralizeTagsAll.
  destruct (schemaOf r !! "tags_all"); intros [= <-]; [done|].
  by rewrite set_Schema_same.
Qed.

Lemma NamePrefixRemoval_Ok r :
  NamePrefixRemoval r = Ok (set_ExternalName (omitNamePrefix (ExternalName r)) r).
Proof.
  unfold NamePrefixRemoval, omitNamePrefix.
  destruct (hasNamePrefix (OmittedFields (ExternalName r))); [|done].
  by rewrite set_ExternalName_same.
Qed.

Lemma neutralizeTagsAll_lookup m k :
  neutralizeTagsAll m !! k
  = if decide (k = "tags_all") then computedOnly <$> m !! k else m !! k.
Proof.
  unfold neutralizeTagsAll. destruct (decide (k = "tags_all")) as [->|Hne].
  - destruct (m !! "tags_all") as [t|] eqn:E; [by rewrite lookup_insert_eq | by rewrite E].
  - destruct (m !! "tags_all"); [by rewrite lookup_insert_ne | done].
Qed.

Lemma neutralizeTagsAll_twice m :
  neutralizeTagsAll (neutralizeTagsAll m) = neutralizeTagsAll m.
Proof.
  apply map_eq; intros k. rewrite !neutralizeTagsAll_lookup.
  destruct (decide (k = "tags_all")); [|done]. by destruct (m !! k).
Qed.

(** The chain, mutator by mutator. *)
Lemma default_chain_steps r0 r :
  applyOptions defaultOptions r0 = Ok r ↔
  ∃ r1 r2 r3 r4 r6,
    GroupKindOverrides r0 = Ok r1 ∧ KindOverrides r1 = Ok r2
    ∧ RegionAddition r2 = Ok r3 ∧ TagsAllRemoval r3 = Ok r4
    ∧ NamePrefixRemoval (set_ExternalName IdentifierFromProvider r4) = Ok r6
    ∧ KnownReferencers r6 = Ok r.
Proof.
  open_options. split.
  - intros Hrun.
    apply bind_Ok in Hrun as (r1 & H1 & Hrun).
    apply bind_Ok in Hrun as (r2 & H2 & Hrun).
    apply bind_Ok in Hrun as (r3 & H3 & Hrun).
    apply bind_Ok in Hrun as (r4 & H4 & Hrun).
    apply bind_Ok in Hrun as (r5 & H5 & Hrun).
    apply bind_Ok in Hrun as (r6 & H6 & Hrun).
    apply bind_Ok in Hrun as (r7 & H7 & Hrun).
    injection Hrun as <-. injection H5 as <-.
    by exists r1, r2, r3, r4, r6.
  - intros (r1 & r2 & r3 & r4 & r6 & H1 & H2 & H3 & H4 & H6 & H7).
    rewrite H1; cbn [mbind result_bind]. rewrite H2; cbn [mbind result_bind].
    rewrite H3; cbn [mbind result_bind]. rewrite H4; cbn [mbind result_bind].
    change (IdentifierAssignedByAWS r4)
      with (Ok (set_ExternalName IdentifierFromProvider r4)).
    cbn [mbind result_bind]. rewrite H6; cbn [mbind result_bind].
    by rewrite H7.
Qed.

(** The descriptor the chain returns, component by component. *)
Lemma default_chain_result r0 r :
  applyOptions defaultOptions r0 = Ok r →
  ∃ g k1 m3,
    ((GroupMap !! Name r0 = None ∧ g = ShortGroup r0 ∧ k1 = Kind r0)
     ∨ ∃ f, GroupMap !! Name r0 = Some f ∧ f (Name r0) = Ok (g, k1))
    ∧ ((g = "iam" ∧ m3 = schemaOf r0)
       ∨ (g ≠ "iam"
          ∧ ∃ comment, comments_New regionText [WithTFTag "-"] = inl comment
              ∧ m3 = <["region" := regionSchema (Comment_String comment)]> (schemaOf r0)))
    ∧ KnownReferencers
        {| Name := Name r0; ShortGroup := g;
           Kind := default k1 (KindMap !! Name r0); Version := Version r0;
           ExternalName := omitNamePrefix IdentifierFromProvider;
           References := References r0;
           TerraformResource := {| SchemaMap := neutralizeTagsAll m3 |} |}
      = Ok r.
Proof.
  intros (r1 & r2 & r3 & r4 & r6 & H1 & H2 & H3 & H4 & H6 & H7)%default_chain_steps.
  rewrite NamePrefixRemoval_Ok in H6. injection H6 as <-.
  apply TagsAllRemoval_Ok in H4 as ->. apply KindOverrides_Ok in H2 as ->.
  assert (∃ g k1, r1 = set_GroupKind g k1 r0
          ∧ ((GroupMap !! Name r0 = None ∧ g = ShortGroup r0 ∧ k1 = Kind r0)
             ∨ ∃ f, GroupMap !! Name r0 = Some f ∧ f (Name r0) = Ok (g, k1)))
    as (g & k1 & -> & Hgk).
  { apply GroupKindOverrides_Ok in H1 as [[Hn ->]|(f & g & k & Hf & Hrun & ->)].
    - exists (ShortGroup r0), (Kind r0). split; [by rewrite set_GroupKind_same | by left].
    - exists g, k. split; [done | right; eauto]. }
  exists g, k1.
  apply RegionAddition_Ok in H3 as [[Hg ->]|[Hg (comment & Hc & ->)]];
    cbn [set_Kind set_GroupKind ShortGroup] in Hg.
  - exists (schemaOf r0). split; [done|]. split; [by left|]. exact H7.
  - eexists. split; [done|]. split; [right; split; [done|]; eauto|]. exact H7.
Qed.

Lemma TagsAllRemoval_run r :
  TagsAllRemoval r = Ok (set_Schema (neutralizeTagsAll (schemaOf r)) r).
Proof.
  destruct (TagsAllRemoval_total r) as [r' H]. rewrite H.
  by apply TagsAllRemoval_Ok in H as <-.
Qed.

(** X11.  The default chain as a whole is idempotent: run on a descriptor it
    returned, the seven mutators return that descriptor again (the external
    name is reset and gets its [name_prefix] back, the overrides, the
    region field, the [tags_all] field and the references are found as
    they were left). *)
Theorem default_chain_idempotent (r0 r : Resource) :
  applyOptions defaultOptions r0 = Ok r →
  applyOptions defaultOptions r = Ok r.
Proof.
  intros (g & k1 & m3 & Hgk & Hm3 & H7)%default_chain_result.
  pose proof (KnownReferencers_idempotent _ _ H7) as Hkr.
  destruct (KnownReferencers_frame _ _ H7) as (HN & HG & HK & _ & HE & HT).
  cbn [Name ShortGroup Kind ExternalName TerraformResource] in HN, HG, HK, HE, HT.
  assert (schemaOf r = neutralizeTagsAll m3) as HS by (unfold schemaOf; by rewrite HT).
  apply default_chain_steps. exists r, r, r, r, r.
  split; [|split; [|split; [|split; [|split]]]].
  - unfold GroupKindOverrides. rewrite HN.
    destruct Hgk as [(Hnone & _ & _)|(f & Hf & Hrun)]; [by rewrite Hnone|].
    rewrite Hf, Hrun. cbn.
    rewrite (GroupMap_KindMap_disjoint (Name r0)) in HK by eauto. cbn in HK.
    by rewrite <- HG, <- HK, set_GroupKind_same.
  - unfold KindOverrides. rewrite HN.
    destruct (KindMap !! Name r0) as [k|]; [|done]. cbn in HK.
    unfold set_Kind. by rewrite <- HK, set_GroupKind_same.
  - destruct Hm3 as [[Hg _]|[Hg (comment & Hc & ->)]].
    + apply RegionAddition_iam. by rewrite HG.
    + rewrite (RegionAddition_accepted r comment) by (rewrite ?HG; done).
      rewrite insert_id; [by rewrite set_Schema_same|].
      rewrite HS, neutralizeTagsAll_lookup, decide_False by done.
      apply lookup_insert_eq.
  - by rewrite TagsAllRemoval_run, HS, neutralizeTagsAll_twice, <- HS, set_Schema_same.
  - rewrite NamePrefixRemoval_Ok. cbn [set_ExternalName ExternalName].
    rewrite <- HE. f_equal. by destruct r.
  - exact Hkr.
Qed.

(** X12.  The default chain never deletes a schema field and changes at most
    two: [tags_all], made computed-only, and [region], which is the fixed
    required string field when the group after the overrides is not [iam]
    and is left as it was (absent too) when it is.  Every other field of
    the initial schema is in the result unchanged. *)
Theorem default_chain_schema (n : string) (tr : TFResource) (r : Resource) :
  defaultResourceFn n tr = Ok r →
  (∀ k, k ≠ "region" → k ≠ "tags_all" →
        schemaOf r !! k = schemaOf (initialResource n tr) !! k)
  ∧ schemaOf r !! "tags_all"
    = computedOnly <$> schemaOf (initialResource n tr) !! "tags_all"
  ∧ (ShortGroup r = "iam" →
     schemaOf r !! "region" = schemaOf (initialResource n tr) !! "region")
  ∧ (ShortGroup r ≠ "iam" →
     ∃ comment, comments_New regionText [WithTFTag "-"] = inl comment
       ∧ schemaOf r !! "region" = Some (regionSchema (Comment_String comment)))
  ∧ (∀ k, is_Some (schemaOf (initialResource n tr) !! k) →
          is_Some (schemaOf r !! k)).
Proof.
  intros Hrun. open_chain_in Hrun.
  apply default_chain_result in Hrun as (g & k1 & m3 & Hgk & Hm3 & H7).
  destruct (KnownReferencers_frame _ _ H7) as (_ & HG & _ & _ & _ & HT).
  cbn [ShortGroup TerraformResource] in HG, HT.
  assert (schemaOf r = neutralizeTagsAll m3) as HS by (unfold schemaOf; by rewrite HT).
  rewrite HG, HS. clear HS HT H7 HG Hgk.
  set (m0 := schemaOf (initialResource n tr)) in *.
  assert (∀ k, k ≠ "region" → m3 !! k = m0 !! k) as Hother.
  { intros k Hk. destruct Hm3 as [[_ ->]|[_ (c & _ & ->)]]; [done|].
    by rewrite lookup_insert_ne. }
  split; [|split; [|split; [|split]]].
  - intros k Hr Ht. rewrite neutralizeTagsAll_lookup, decide_False by done. by apply Hother.
  - rewrite neutralizeTagsAll_lookup, decide_True by done. by rewrite Hother.
  - intros Hg. rewrite neutralizeTagsAll_lookup, decide_False by done.
    destruct Hm3 as [[_ ->]|[Hne _]]; done.
  - intros Hg. rewrite neutralizeTagsAll_lookup, decide_False by done.
    destruct Hm3 as [[Hiam _]|[_ (c & Hc & ->)]]; [done|].
    exists c. split; [done|]. apply lookup_insert_eq.
  - intros k Hk. rewrite neutralizeTagsAll_lookup.
    assert (is_Some (m3 !! k)) as Hk3.
    { destruct (decide (k = "region")) as [->|Hne]; [|by rewrite Hother].
      destruct Hm3 as [[_ ->]|[_ (c & _ & ->)]]; [done|].
      rewrite lookup_insert_eq. by eexists. }
    destruct (decide (k = "tags_all")); [|done].
    destruct Hk3 as [t ->]. by eexists.
Qed.

(** X13.  Whatever external name the initial descriptor had, the descriptor
    the default chain returns has the library's [IdentifierFromProvider]
    with [name_prefix] appended to its omitted fields unless it is among
    them: fields the initial external name omitted (such as [name]) are
    not carried over. *)
Theorem default_chain_external_name (n : string) (tr : TFResource) (r : Resource) :
  defaultResourceFn n tr = Ok r →
  Fns (ExternalName r) = Fns IdentifierFromProvider
  ∧ DisableNameInitializer (ExternalName r)
    = DisableNameInitializer IdentifierFromProvider
  ∧ OmittedFields (ExternalName r)
    = (if decide ("name_prefix" ∈ OmittedFields IdentifierFromProvider)
       then OmittedFields IdentifierFromProvider
       else (OmittedFields IdentifierFromProvider ++ ["name_prefix"])%list).
Proof.
  intros Hrun. open_chain_in Hrun.
  apply default_chain_result in Hrun as (g & k1 & m3 & _ & _ & H7).
  destruct (KnownReferencers_frame _ _ H7) as (_ & _ & _ & _ & -> & _).
  cbn [ExternalName]. unfold omitNamePrefix.
  destruct (hasNamePrefix (OmittedFields IdentifierFromProvider)) eqn:E.
  - apply hasNamePrefix_elem in E. by rewrite decide_True.
  - rewrite decide_False; [done|]. intros H%hasNamePrefix_elem. congruence.
Qed.

Lemma KindOverrides_ShortGroup r r' :
  KindOverrides r = Ok r' → ShortGroup r' = ShortGroup r.
Proof. by intros ->%KindOverrides_Ok. Qed.

(** X14.  When the comment builder rejects the region description, the
    default chain aborts with the wrapped error exactly for the descriptors
    whose group after [GroupKindOverrides] is not [iam]; for a descriptor
    in group [iam] at that point the builder is never consulted and the
    chain returns a descriptor. *)
Theorem default_chain_panics (n : string) (tr : TFResource) (err : string)
    (r1 : Resource) :
  comments_New regionText [WithTFTag "-"] = inr err →
  GroupKindOverrides (initialResource n tr) = Ok r1 →
  (ShortGroup r1 ≠ "iam" →
   defaultResourceFn n tr = Panic ("cannot build comment for region: " +:+ err))
  ∧ (ShortGroup r1 = "iam" → ∃ r, defaultResourceFn n tr = Ok r).
Proof.
  intros Hc H1. destruct (KindOverrides_total r1) as [r2 H2].
  pose proof (KindOverrides_ShortGroup _ _ H2) as Hg2.
  split; intros Hg.
  - open_chain. rewrite H1; cbn [mbind result_bind]. rewrite H2; cbn [mbind result_bind].
    rewrite (RegionAddition_rejected r2 err) by (rewrite ?Hg2; done). reflexivity.
  - destruct (TagsAllRemoval_total r2) as [r4 H4].
    destruct (KnownReferencers_total
                (set_ExternalName (omitNamePrefix IdentifierFromProvider) r4)) as [r H7].
    exists r. open_chain. apply default_chain_steps.
    exists r1, r2, r2, r4, (set_ExternalName (omitNamePrefix IdentifierFromProvider) r4).
    split; [done|]. split; [done|].
    split; [apply RegionAddition_iam; by rewrite Hg2|].
    split; [done|]. split; [|done]. by rewrite NamePrefixRemoval_Ok.
Qed.

(** X15.  The group and kind of the descriptor the default chain returns
    come from the two tables alone: a name in the group table gets the
    group and kind its calculator computes, a name in the kind table keeps
    its group and gets the literal kind, a name in neither keeps both; the
    name and the version are never changed. *)
Theorem default_chain_group_kind (n : string) (tr : TFResource) (r : Resource) :
  defaultResourceFn n tr = Ok r →
  Name r = Name (initialResource n tr)
  ∧ Version r = Version (initialResource n tr)
  ∧ (∀ f, GroupMap !! Name (initialResource n tr) = Some f →
          f (Name (initialResource n tr)) = Ok (ShortGroup r, Kind r))
  ∧ (GroupMap !! Name (initialResource n tr) = None →
     ShortGroup r = ShortGroup (initialResource n tr))
  ∧ (∀ k, KindMap !! Name (initialResource n tr) = Some k → Kind r = k)
  ∧ (GroupMap !! Name (initialResource n tr) = None →
     KindMap !! Name (initialResource n tr) = None →
     Kind r = Kind (initialResource n tr)).
Proof.
  intros Hrun. open_chain_in Hrun.
  apply default_chain_result in Hrun as (g & k1 & m3 & Hgk & _ & H7).
  destruct (KnownReferencers_frame _ _ H7) as (-> & -> & -> & -> & _).
  cbn [Name ShortGroup Kind Version].
  split; [done|]. split; [done|]. split; [|split; [|split]].
  - intros f Hf. destruct Hgk as [(Hnone & _)|(f' & Hf' & Hrun)]; [congruence|].
    rewrite (GroupMap_KindMap_disjoint (Name (initialResource n tr))) by eauto.
    cbn. congruence.
  - intros Hnone. destruct Hgk as [(_ & -> & _)|(f' & Hf' & _)]; [done | congruence].
  - by intros k ->.
  - intros Hnone ->. cbn.
    destruct Hgk as [(_ & _ & ->)|(f' & Hf' & _)]; [done | congruence].
Qed.

Lemma region_no_rule group s : wired group "region" s = None.
Proof.
  apply wired_no_rule; [reflexivity..|].
  intros [?|[?|[?|[?|[?|[?|?]]]]]]%exactNames_spec; discriminate.
Qed.

Lemma tags_all_no_rule group s : wired group "tags_all" s = None.
Proof.
  apply wired_no_rule; [reflexivity..|].
  intros [?|[?|[?|[?|[?|[?|?]]]]]]%exactNames_spec; discriminate.
Qed.

(** X16.  In the default chain the references are wired last, from the group
    the overrides left: an eligible [vpc_id] field of the initial schema is
    wired by the short name [VPC] exactly when the returned descriptor is
    in group [ec2].  The injected [region] field and [tags_all] get no
    reference, and a name that is no field of the initial schema keeps the
    reference it had. *)
Theorem default_chain_references (n : string) (tr : TFResource) (r : Resource) :
  defaultResourceFn n tr = Ok r →
  (∀ s, schemaOf (initialResource n tr) !! "vpc_id" = Some s →
        Computed s && negb (Optional s) = false → Sensitive s = false →
        References r !! "vpc_id"
        = Some (refNamed (if String.eqb (ShortGroup r) "ec2" then "VPC" else ec2VPC)
                  "VpcIdRef" "VpcIdSelector"))
  ∧ References r !! "region" = References (initialResource n tr) !! "region"
  ∧ References r !! "tags_all" = References (initialResource n tr) !! "tags_all"
  ∧ (∀ k, schemaOf (initialResource n tr) !! k = None → k ≠ "region" →
          References r !! k = References (initialResource n tr) !! k).
Proof.
  intros Hrun. open_chain_in Hrun.
  apply default_chain_result in Hrun as (g & k1 & m3 & _ & Hm3 & H7).
  pose proof (λ k, KnownReferencers_lookup _ r k H7) as Hl.
  destruct (KnownReferencers_frame _ _ H7) as (_ & HG & _).
  cbn [ShortGroup References] in HG, Hl. unfold schemaOf at 1 in Hl.
  cbn [TerraformResource SchemaMap] in Hl. rewrite HG.
  set (m0 := schemaOf (initialResource n tr)) in *.
  assert (∀ k, k ≠ "region" → m3 !! k = m0 !! k) as Hother.
  { intros k Hk. destruct Hm3 as [[_ ->]|[_ (c & _ & ->)]]; [done|].
    by rewrite lookup_insert_ne. }
  split; [|split; [|split]].
  - intros s Hs Hc Hsens.
    rewrite Hl, neutralizeTagsAll_lookup, decide_False, Hother, Hs by done.
    cbn [mbind option_bind]. by rewrite (wired_vpc_id _ _ (not_skipped _ Hc Hsens)).
  - rewrite Hl. destruct (neutralizeTagsAll m3 !! "region"); [|done].
    cbn [mbind option_bind]. by rewrite region_no_rule.
  - rewrite Hl. destruct (neutralizeTagsAll m3 !! "tags_all"); [|done].
    cbn [mbind option_bind]. by rewrite tags_all_no_rule.
  - intros k Hk Hr. rewrite Hl, neutralizeTagsAll_lookup, Hother, Hk by done.
    by destruct (decide (k = "tags_all")).
Qed.

End Properties.

(** ** The claims at concrete descriptors *)

(** [vpc_id] in the [ec2] group and outside it. *)
Lemma vpc_id_reference_by_group_witness :
  (∃ r', KnownReferencers arnExtractor subnetInEc2 = Ok r'
     ∧ References r' !! "vpc_id"
       = Some (refNamed "VPC" "VpcIdRef" "VpcIdSelector"))
  ∧ (∃ r', KnownReferencers arnExtractor clusterInEks = Ok r'
       ∧ References r' !! "vpc_id"
         = Some (refNamed ec2VPC "VpcIdRef" "VpcIdSelector")).
Proof.
  split.
  - destruct (vpc_id_reference_by_group arnExtractor subnetInEc2 optionalString)
      as (r' & Hrun & Hec2 & _); [reflexivity..|].
    exists r'. split; [exact Hrun|]. apply Hec2. reflexivity.
  - destruct (vpc_id_reference_by_group arnExtractor clusterInEks optionalString)
      as (r' & Hrun & _ & Hother); [reflexivity..|].
    exists r'. split; [exact Hrun|]. apply Hother. discriminate.
Defined.

(** A sensitive [kms_key_id] gets no reference although its name matches an
    exact-name rule. *)
Lemma no_reference_for_status_or_sensitive_witness :
  ∃ r', KnownReferencers arnExtractor withSecretKey = Ok r'
    ∧ References r' !! "kms_key_id" = None.
Proof.
  apply (no_reference_for_status_or_sensitive arnExtractor withSecretKey
           "kms_key_id" secretString).
  - reflexivity.
  - right. reflexivity.
  - reflexivity.
Defined.

(** [db_security_group_ids] of a database instance. *)
Lemma security_group_ids_reference_witness :
  ∃ r' ref, KnownReferencers arnExtractor dbInstance = Ok r'
    ∧ References r' !! "db_security_group_ids" = Some ref
    ∧ RefFieldName ref
      = gostrings.TrimSuffix (name.Camel (name.NewFromSnake "db_security_group_ids")) "s"
        +:+ "Refs"
    ∧ gostrings.HasSuffix (RefFieldName ref) "IdRefs" = true
    ∧ gostrings.HasSuffix (SelectorFieldName ref) "IdSelector" = true.
Proof.
  destruct (security_group_ids_reference arnExtractor dbInstance
              "db_security_group_ids" optionalSet)
    as (r' & ref & Hrun & Hlook & _ & _ & Hname & _ & Hdb); [reflexivity..|].
  exists r', ref. split; [exact Hrun|]. split; [exact Hlook|].
  split; [exact Hname|].
  destruct (Hdb eq_refl) as (Hrefs & Hsel & _). split; [exact Hrefs | exact Hsel].
Defined.

(** C3, as stated, fails: the names wired for [db_security_group_ids] of a
    database instance keep the word [Id] (they end with [IdRefs] and
    [IdSelector]) and are not [DbSecurityGroupRefs] and
    [DbSecurityGroupSelector].  No PascalCase form that keeps the word
    [Ids] gives the claimed names: the rule yields them only from
    [DbSecurityGroup] or [DbSecurityGroups]. *)
Lemma db_security_group_ids_counterexample :
  (∃ r' ref, KnownReferencers arnExtractor dbInstance = Ok r'
     ∧ schemaOf dbInstance !! "db_security_group_ids" = Some optionalSet
     ∧ References r' !! "db_security_group_ids" = Some ref
     ∧ gostrings.HasSuffix (RefFieldName ref) "IdRefs" = true
     ∧ gostrings.HasSuffix (SelectorFieldName ref) "IdSelector" = true
     ∧ RefFieldName ref ≠ "DbSecurityGroupRefs"
     ∧ SelectorFieldName ref ≠ "DbSecurityGroupSelector")
  ∧ (∀ camel,
       gostrings.TrimSuffix camel "s" +:+ "Refs" = "DbSecurityGroupRefs" →
       camel = "DbSecurityGroup" ∨ camel = "DbSecurityGroups")
  ∧ (∀ camel,
       gostrings.HasSuffix camel "Ids" = true →
       gostrings.TrimSuffix camel "s" +:+ "Refs" ≠ "DbSecurityGroupRefs"
       ∧ gostrings.TrimSuffix camel "s" +:+ "Selector" ≠ "DbSecurityGroupSelector").
Proof.
  split; [|split].
  - eexists. eexists. split; [reflexivity|]. split; [reflexivity|].
    split; [reflexivity|]. cbn [RefFieldName SelectorFieldName refNamed].
    apply gostrings_facts.names_keep_Id. reflexivity.
  - exact gostrings_facts.DbSecurityGroupRefs_only_from.
  - intros camel H. by destruct (gostrings_facts.names_keep_Id camel H) as (_ & _ & ? & ?).
Qed.

(** [tags_all] of a VPC, and a subnet without [tags_all]. *)
Lemma tags_all_neutralized_witness :
  (∃ r' t', TagsAllRemoval withTags = Ok r'
     ∧ schemaOf r' !! "tags_all" = Some t'
     ∧ Computed t' = true ∧ Optional t' = false
     ∧ Type_ t' = TypeMap
     ∧ schemaOf r' !! "tags" = Some optionalString
     ∧ Name r' = "aws_vpc")
  ∧ TagsAllRemoval subnetInEc2 = Ok subnetInEc2.
Proof.
  split.
  - destruct (proj1 tags_all_neutralized withTags settableTags eq_refl)
      as (r' & t' & Hrun & Hlook & Hc & Ho & Ht & Hframe & _ & Hname & _).
    exists r', t'. do 4 (split; [assumption|]).
    split; [by rewrite Ht|].
    split; [by rewrite (Hframe "tags") by discriminate | exact Hname].
  - apply (proj2 tags_all_neutralized subnetInEc2). reflexivity.
Defined.

(** Region injection on a subnet, and none on an [iam] role. *)
Lemma region_added_unless_iam_witness :
  (∃ r' f, RegionAddition _ acceptingBuilder renderComment subnetInEc2 = Ok r'
     ∧ schemaOf r' !! "region" = Some f
     ∧ Type_ f = TypeString ∧ Required f = true
     ∧ Description f = renderComment (regionText, [WithTFTag "-"])
     ∧ fieldCount "region" (schemaOf r') = 1%nat
     ∧ schemaOf r' !! "vpc_id" = Some optionalString
     ∧ size (schemaOf r') = 2%nat
     ∧ ShortGroup r' = "ec2")
  ∧ (∃ r', RegionAddition _ acceptingBuilder renderComment iamRoleDescriptor = Ok r'
       ∧ r' = iamRoleDescriptor
       ∧ schemaOf r' = schemaOf iamRoleDescriptor
       ∧ fieldCount "region" (schemaOf r')
         = fieldCount "region" (schemaOf iamRoleDescriptor)).
Proof.
  split.
  - destruct (proj1 (region_added_unless_iam _ acceptingBuilder renderComment)
                subnetInEc2 (regionText, [WithTFTag "-"]))
      as (r' & f & Hrun & Hlook & Ht & Hr & Hd & Hcount & _ & Hframe & Hsize
          & _ & Hgroup & _); [discriminate | reflexivity |].
    exists r', f. do 6 (split; [assumption|]).
    split; [by rewrite (Hframe "vpc_id") by discriminate|].
    split; [by rewrite Hsize by reflexivity | exact Hgroup].
  - apply (proj2 (region_added_unless_iam _ acceptingBuilder renderComment)
             iamRoleDescriptor).
    reflexivity.
Defined.

(** A bucket whose schema has a [region] field of its own. *)
Lemma existing_region_replaced_witness :
  ∃ r', RegionAddition _ acceptingBuilder renderComment withOwnRegion = Ok r'
    ∧ schemaOf r' !! "region"
      = Some (regionSchema (renderComment (regionText, [WithTFTag "-"])))
    ∧ fieldCount "region" (schemaOf r') = 1%nat
    ∧ size (schemaOf r') = size (schemaOf withOwnRegion)
    ∧ (∀ k, k ≠ "region" → schemaOf r' !! k = schemaOf withOwnRegion !! k).
Proof.
  apply (existing_region_replaced _ acceptingBuilder renderComment
           withOwnRegion ownRegion (regionText, [WithTFTag "-"])).
  - reflexivity.
  - discriminate.
  - reflexivity.
Defined.

(** C4, as stated, fails: the existing [region] field was an optional,
    computed list forcing a new resource, with item bounds; after
    [RegionAddition] it is a string, not optional, not computed, and the
    other attributes are gone too. *)
Lemma own_region_overwritten_counterexample :
  ∃ r' new, RegionAddition _ acceptingBuilder renderComment withOwnRegion = Ok r'
    ∧ schemaOf withOwnRegion !! "region" = Some ownRegion
    ∧ schemaOf r' !! "region" = Some new
    ∧ (Type_ ownRegion = TypeList ∧ Type_ new = TypeString)
    ∧ (Optional ownRegion = true ∧ Optional new = false)
    ∧ (Computed ownRegion = true ∧ Computed new = false)
    ∧ (ForceNew ownRegion = true ∧ ForceNew new = false)
    ∧ (MaxItems ownRegion = 3%Z ∧ MaxItems new = 0%Z)
    ∧ Type_ new ≠ Type_ ownRegion.
Proof.
  eexists. exists (regionSchema (renderComment (regionText, [WithTFTag "-"]))).
  split; [reflexivity|]. split; [reflexivity|]. split; [reflexivity|].
  repeat (split; [split; reflexivity|]). discriminate.
Qed.

(** A builder that rejects the description makes region injection panic on
    a subnet. *)
Lemma region_comment_failure_panics_witness :
  RegionAddition _ rejectingBuilder renderComment subnetInEc2
  = Panic "cannot build comment for region: malformed marker".
Proof.
  apply (proj1 (region_comment_failure_panics _ rejectingBuilder renderComment
                  fromProvider arnExtractor) subnetInEc2 "malformed marker").
  - discriminate.
  - reflexivity.
Defined.

(** The override of [aws_route_table] on a descriptor of that name. *)
Lemma group_override_kind_witness :
  ∃ group count,
    ReplaceGroupWords "ec2" 0 = ReplaceGroupWords group (Z.of_nat count)
    ∧ ReplaceGroupWords "ec2" 0 "aws_route_table"
      = Ok (group, kindFromWords count "aws_route_table")
    ∧ ∀ r, Name r = "aws_route_table" →
        GroupKindOverrides r
        = Ok (set_GroupKind group (kindFromWords count "aws_route_table") r).
Proof.
  apply (proj1 group_override_kind "aws_route_table" (ReplaceGroupWords "ec2" 0)).
  reflexivity.
Defined.

(** Two applications on a subnet: one [region] field; two applications of
    the name-prefix omission on a descriptor that omits nothing yet: one
    ["name_prefix"]. *)
Lemma mutators_idempotent_witness :
  (∃ d1, RegionAddition _ acceptingBuilder renderComment subnetInEc2 = Ok d1
     ∧ RegionAddition _ acceptingBuilder renderComment d1 = Ok d1
     ∧ fieldCount "region" (schemaOf d1) = 1%nat)
  ∧ (∃ d1, NamePrefixRemoval (set_ExternalName fromProvider subnetInEc2) = Ok d1
       ∧ NamePrefixRemoval d1 = Ok d1
       ∧ occurrences "name_prefix" (OmittedFields (ExternalName d1)) = 1%nat).
Proof.
  pose proof (mutators_idempotent _ acceptingBuilder renderComment
                fromProvider arnExtractor) as (Hidem & Hregion & Hprefix).
  split.
  - eexists. split; [reflexivity|].
    assert (RegionAddition _ acceptingBuilder renderComment
              (set_Schema (<["region" := regionSchema (renderComment (regionText, [WithTFTag "-"]))]>
                             (schemaOf subnetInEc2)) subnetInEc2)
            = Ok (set_Schema (<["region" := regionSchema (renderComment (regionText, [WithTFTag "-"]))]>
                             (schemaOf subnetInEc2)) subnetInEc2)) as Hsecond.
    { apply (Hidem (RegionAddition _ acceptingBuilder renderComment)
               ltac:(do 2 right; left) subnetInEc2). reflexivity. }
    split; [exact Hsecond|].
    apply (Hregion subnetInEc2 _ _ ltac:(discriminate) eq_refl Hsecond).
  - eexists. split; [reflexivity|].
    assert (NamePrefixRemoval
              (set_ExternalName
                 {| Fns := IdentifierFromProviderFns; OmittedFields := ["name_prefix"];
                    DisableNameInitializer := true |}
                 (set_ExternalName fromProvider subnetInEc2))
            = Ok (set_ExternalName
                    {| Fns := IdentifierFromProviderFns; OmittedFields := ["name_prefix"];
                       DisableNameInitializer := true |}
                    (set_ExternalName fromProvider subnetInEc2))) as Hsecond.
    { apply (Hidem NamePrefixRemoval ltac:(do 5 right; left)
               (set_ExternalName fromProvider subnetInEc2)). reflexivity. }
    split; [exact Hsecond|].
    apply (Hprefix (set_ExternalName fromProvider subnetInEc2) _ _ eq_refl Hsecond).
    cbn. lia.
Defined.

(** The default chain on a route table. *)
Lemma name_prefix_omitted_once_witness :
  ∃ r, defaultResourceFn _ acceptingBuilder renderComment fromProvider arnExtractor
         plainResource "aws_route_table" routeTableSchema
       = Ok r
    ∧ occurrences "name_prefix" (OmittedFields (ExternalName r)) = 1%nat.
Proof.
  pose proof (name_prefix_omitted_once _ acceptingBuilder renderComment
                fromProvider arnExtractor plainResource) as (_ & Honce & Hruns).
  destruct (Hruns "aws_route_table" routeTableSchema
              (regionText, [WithTFTag "-"]) eq_refl) as [r Hr].
  exists r. split; [exact Hr|].
  apply (Honce "aws_route_table" routeTableSchema r); [apply NoDup_nil_2 | exact Hr].
Defined.

(** ** The further properties at concrete descriptors *)

Lemma referencers_any_order_witness :
  KnownReferencersIn arnExtractor
    [("execution_role_arn", requiredString); ("subnet_ids", optionalSet);
     ("kms_key_arn", optionalString)] lambdaFunction
  = KnownReferencersIn arnExtractor
      [("kms_key_arn", optionalString); ("subnet_ids", optionalSet);
       ("execution_role_arn", requiredString)] lambdaFunction
  ∧ KnownReferencers arnExtractor lambdaFunction
    = Ok (KnownReferencersIn arnExtractor
            [("execution_role_arn", requiredString); ("subnet_ids", optionalSet);
             ("kms_key_arn", optionalString)] lambdaFunction).
Proof.
  assert ([("execution_role_arn", requiredString); ("subnet_ids", optionalSet);
           ("kms_key_arn", optionalString)]
          ≡ₚ map_to_list (schemaOf lambdaFunction)) as H1.
  { symmetry. apply map_to_list_to_map.
    apply (bool_decide_unpack _). vm_compute. exact I. }
  apply (referencers_any_order arnExtractor lambdaFunction); [exact H1|].
  etrans; [|exact H1].
  apply (reverse_Permutation
           [("execution_role_arn", requiredString); ("subnet_ids", optionalSet);
            ("kms_key_arn", optionalString)]).
Defined.

Lemma referencers_keep_entries_witness :
  ∃ r', KnownReferencers arnExtractor withForeignReference = Ok r'
    ∧ References r' !! "cluster_name" = Some (refTo "Cluster")
    ∧ Name r' = "aws_eks_cluster" ∧ ShortGroup r' = "eks".
Proof.
  eexists. split; [reflexivity|].
  destruct (referencers_keep_entries arnExtractor withForeignReference _ eq_refl)
    as (_ & Hforeign & _ & Hname & Hgroup & _).
  split; [|split; [exact Hname | exact Hgroup]].
  rewrite (Hforeign "cluster_name" eq_refl). reflexivity.
Defined.

Lemma referencer_rules_exclusive_witness :
  gostrings.HasSuffix "execution_role_arn" "security_group_ids" = false
  ∧ "execution_role_arn" ∉ exactNames.
Proof.
  apply (proj1 (referencer_rules_exclusive "execution_role_arn")). reflexivity.
Defined.

Lemma role_arn_reference_witness :
  ∃ r', KnownReferencers arnExtractor lambdaFunction = Ok r'
    ∧ References r' !! "execution_role_arn"
      = Some {| RefType := iamRole; Extractor := arnExtractor;
                RefFieldName := ""; SelectorFieldName := "" |}.
Proof.
  apply (role_arn_reference arnExtractor lambdaFunction "execution_role_arn"
           requiredString); reflexivity.
Defined.

Lemma subnet_ids_reference_by_group_witness :
  (∃ r', KnownReferencers arnExtractor networkInterface = Ok r'
     ∧ References r' !! "subnet_ids"
       = Some (refNamed "Subnet" "SubnetIdRefs" "SubnetIdSelector"))
  ∧ (∃ r', KnownReferencers arnExtractor lambdaFunction = Ok r'
       ∧ References r' !! "subnet_ids"
         = Some (refNamed ec2Subnet "SubnetIdRefs" "SubnetIdSelector")).
Proof.
  split.
  - destruct (subnet_ids_reference_by_group arnExtractor networkInterface optionalSet)
      as (r' & Hrun & Hec2 & _); [reflexivity..|].
    exists r'. split; [exact Hrun|]. apply Hec2. reflexivity.
  - destruct (subnet_ids_reference_by_group arnExtractor lambdaFunction optionalSet)
      as (r' & Hrun & _ & Hother); [reflexivity..|].
    exists r'. split; [exact Hrun|]. apply Hother. discriminate.
Defined.

(** [subnet_id] and [security_group_id] of a network interface, which is in
    group [ec2] itself. *)
Lemma plain_exact_name_references_witness :
  (∃ r', KnownReferencers arnExtractor networkInterface = Ok r'
     ∧ References r' !! "subnet_id" = Some (refTo ec2Subnet))
  ∧ (∃ r', KnownReferencers arnExtractor networkInterface = Ok r'
       ∧ References r' !! "security_group_id" = Some (refTo ec2SecurityGroup)).
Proof.
  split.
  - destruct (plain_exact_name_references arnExtractor networkInterface
                "subnet_id" requiredString)
      as (r' & Hrun & Hsubnet & _); [reflexivity..|].
    exists r'. split; [exact Hrun|]. apply Hsubnet. reflexivity.
  - destruct (plain_exact_name_references arnExtractor networkInterface
                "security_group_id" optionalString)
      as (r' & Hrun & _ & Hsg & _); [reflexivity..|].
    exists r'. split; [exact Hrun|]. apply Hsg. reflexivity.
Defined.

Lemma overrides_commute_witness :
  KindMap !! "aws_route_table" = None
  ∧ GroupKindOverrides (plainResource "aws_cloudtrail" routeTableSchema) ≫= KindOverrides
    = KindOverrides (plainResource "aws_cloudtrail" routeTableSchema) ≫= GroupKindOverrides.
Proof.
  split.
  - apply (proj1 overrides_commute "aws_route_table"). by eexists.
  - apply (proj2 overrides_commute).
Defined.

(** [aws_route_table] has two words: two may be dropped, three may not. *)
Lemma ReplaceGroupWords_bounds_witness :
  ReplaceGroupWords "ec2" 2 "aws_route_table" = Ok ("ec2", "")
  ∧ ReplaceGroupWords "ec2" 3 "aws_route_table"
    = Panic "runtime error: slice bounds out of range"
  ∧ ReplaceGroupWords "ec2" (-1) "aws_route_table"
    = Panic "runtime error: slice bounds out of range".
Proof.
  split; [|split].
  - apply (ReplaceGroupWords_bounds "ec2" 2 "aws_route_table"). reflexivity.
  - apply (ReplaceGroupWords_bounds "ec2" 3 "aws_route_table"). right. reflexivity.
  - apply (ReplaceGroupWords_bounds "ec2" (-1) "aws_route_table"). left. reflexivity.
Defined.

Lemma ReplaceGroupWords_keeps_all_words_witness :
  ReplaceGroupWords "compute" 0 "google_compute_instance"
  = Ok ("compute", name.Camel (name.NewFromSnake "google_compute_instance")).
Proof.
  apply (proj2 (ReplaceGroupWords_keeps_all_words "compute" "google_compute_instance")).
  reflexivity.
Defined.

Lemma name_prefix_appended_last_witness :
  ∃ r', NamePrefixRemoval (set_ExternalName fromProvider subnetInEc2) = Ok r'
    ∧ OmittedFields (ExternalName r') = ["name_prefix"].
Proof.
  destruct (name_prefix_appended_last (set_ExternalName fromProvider subnetInEc2))
    as (r' & Hrun & _ & Happend & _).
  exists r'. split; [exact Hrun|]. apply Happend. by intros ?%elem_of_nil.
Defined.

Lemma default_chain_idempotent_witness :
  ∃ r, applyOptions (defaultOptions _ acceptingBuilder renderComment fromProvider arnExtractor)
         (routeResource "aws_route_table" taggedSchema) = Ok r
    ∧ applyOptions (defaultOptions _ acceptingBuilder renderComment fromProvider arnExtractor)
        r = Ok r.
Proof.
  eexists. split; [reflexivity|].
  apply (default_chain_idempotent _ acceptingBuilder renderComment fromProvider
           arnExtractor (routeResource "aws_route_table" taggedSchema)).
  reflexivity.
Defined.

(** A route table that starts in a group of its own, with [tags_all], a
    [region] field of its own and a [vpc_id]. *)
Lemma default_chain_schema_witness :
  ∃ r, defaultResourceFn _ acceptingBuilder renderComment fromProvider arnExtractor
         routeResource "aws_route_table" taggedSchema = Ok r
    ∧ schemaOf r !! "vpc_id" = Some optionalString
    ∧ schemaOf r !! "tags_all" = Some (computedOnly settableTags)
    ∧ ∃ comment, acceptingBuilder regionText [WithTFTag "-"] = inl comment
        ∧ schemaOf r !! "region" = Some (regionSchema (renderComment comment)).
Proof.
  eexists. split; [reflexivity|].
  destruct (default_chain_schema _ acceptingBuilder renderComment fromProvider
              arnExtractor routeResource "aws_route_table" taggedSchema _ eq_refl)
    as (Hother & Htags & _ & Hregion & _).
  split; [|split].
  - rewrite (Hother "vpc_id") by discriminate. reflexivity.
  - rewrite Htags. reflexivity.
  - apply Hregion. discriminate.
Defined.

Lemma default_chain_external_name_witness :
  ∃ r, defaultResourceFn _ acceptingBuilder renderComment fromProvider arnExtractor
         routeResource "aws_route_table" taggedSchema = Ok r
    ∧ OmittedFields (ExternalName (routeResource "aws_route_table" taggedSchema))
      = ["name"; "name_prefix"]
    ∧ OmittedFields (ExternalName r) = ["name_prefix"].
Proof.
  eexists. split; [reflexivity|]. split; [reflexivity|].
  destruct (default_chain_external_name _ acceptingBuilder renderComment fromProvider
              arnExtractor routeResource "aws_route_table" taggedSchema _ eq_refl)
    as (_ & _ & Homitted).
  rewrite Homitted. reflexivity.
Defined.

(** With a rejecting builder the chain aborts on a route table and returns
    on a role of the [iam] group. *)
Lemma default_chain_panics_witness :
  defaultResourceFn _ rejectingBuilder renderComment fromProvider arnExtractor
    routeResource "aws_route_table" taggedSchema
  = Panic "cannot build comment for region: malformed marker"
  ∧ ∃ r, defaultResourceFn _ rejectingBuilder renderComment fromProvider arnExtractor
           iamResource "aws_iam_role" taggedSchema = Ok r.
Proof.
  split.
  - apply (default_chain_panics _ rejectingBuilder renderComment fromProvider
             arnExtractor routeResource "aws_route_table" taggedSchema
             "malformed marker" _ eq_refl eq_refl).
    discriminate.
  - apply (default_chain_panics _ rejectingBuilder renderComment fromProvider
             arnExtractor iamResource "aws_iam_role" taggedSchema
             "malformed marker" _ eq_refl eq_refl).
    reflexivity.
Defined.

Lemma default_chain_group_kind_witness :
  (∃ r, defaultResourceFn _ acceptingBuilder renderComment fromProvider arnExtractor
          routeResource "aws_route_table" taggedSchema = Ok r
     ∧ Name r = "aws_route_table"
     ∧ ReplaceGroupWords "ec2" 0 "aws_route_table" = Ok (ShortGroup r, Kind r))
  ∧ (∃ r, defaultResourceFn _ acceptingBuilder renderComment fromProvider arnExtractor
            routeResource "aws_cloudtrail" taggedSchema = Ok r
       ∧ ShortGroup r = "route" ∧ Kind r = "Trail").
Proof.
  split.
  - eexists. split; [reflexivity|].
    destruct (default_chain_group_kind _ acceptingBuilder renderComment fromProvider
                arnExtractor routeResource "aws_route_table" taggedSchema _ eq_refl)
      as (Hname & _ & Hgroup & _).
    split; [exact Hname|]. apply (Hgroup (ReplaceGroupWords "ec2" 0)). reflexivity.
  - eexists. split; [reflexivity|].
    destruct (default_chain_group_kind _ acceptingBuilder renderComment fromProvider
                arnExtractor routeResource "aws_cloudtrail" taggedSchema _ eq_refl)
      as (_ & _ & _ & Hgroup & Hkind & _).
    split; [apply Hgroup; reflexivity | apply (Hkind "Trail"); reflexivity].
Defined.

(** The route table starts in group [route] and is moved to [ec2] by the
    group override: its [vpc_id] is wired by the short name. *)
Lemma default_chain_references_witness :
  ∃ r, defaultResourceFn _ acceptingBuilder renderComment fromProvider arnExtractor
         routeResource "aws_route_table" taggedSchema = Ok r
    ∧ ShortGroup (routeResource "aws_route_table" taggedSchema) = "route"
    ∧ References r !! "vpc_id" = Some (refNamed "VPC" "VpcIdRef" "VpcIdSelector")
    ∧ References r !! "region" = None
    ∧ References r !! "gateway_id" = Some (refTo "InternetGateway").
Proof.
  eexists. split; [reflexivity|]. split; [reflexivity|].
  destruct (default_chain_references _ acceptingBuilder renderComment fromProvider
              arnExtractor routeResource "aws_route_table" taggedSchema _ eq_refl)
    as (Hvpc & Hregion & _ & Hforeign).
  split; [|split].
  - rewrite (Hvpc optionalString) by reflexivity. reflexivity.
  - rewrite Hregion. reflexivity.
  - rewrite (Hforeign "gateway_id") by (reflexivity || discriminate). reflexivity.
Defined.
